(** * go-service: the supervisor control loop and its lifecycle helper

    A shallow embedding of [service.Run] and [service.NewService] (the
    iteration of the package whose lifecycle helper posts [Running] only
    after the start window).  The control loop is a reactive program: one
    iteration of its [select] consumes one message (a command, a process
    state posted by the lifecycle helper, or a pid posted by a stop timer)
    and performs channel sends, goroutine spawns and signal deliveries.
    Those are recorded as a trace of [Effect]s; the loop's locals and the
    [Service] fields are threaded through a small state monad whose failure
    case is a Go runtime panic (nil dereference, index out of range). *)

From Stdlib Require Import ZArith String List Bool Lia.
Import ListNotations.
(** String literals; equality on command names. *)
Open Scope string_scope.
Open Scope list_scope.
Open Scope Z_scope.
Infix "=s" := String.eqb (at level 70, no associativity).

(** ** Constants of the package *)

(** [time.Duration] counts nanoseconds. *)
Definition Duration := Z.
Definition Second : Duration := 1000000000.

(** [syscall.Signal] is a signal number; [SIGINT] is 2. *)
Definition Signal := Z.
Definition SIGINT : Signal := 2.

Definition DefaultStartTimeout : Duration := 1 * Second.
Definition DefaultStartRetries : Z := 3.
Definition DefaultStopSignal : Signal := SIGINT.
Definition DefaultStopTimeout : Duration := 5 * Second.
Definition DefaultStopRestart : bool := true.

(** Service commands: the names a caller puts in [Command.Name]. *)
Definition Start : string := "start".
Definition Stop : string := "stop".
Definition Restart : string := "restart".
Definition Shutdown : string := "shutdown".

(** Service states.  The package declares them as six string constants;
    the [state] field and the helper's notifications only ever hold one of
    them, so they are an enumeration here and [State_name] gives back the
    string. *)
Inductive State : Set :=
| Starting | Running | Stopping | Stopped | Exited | Backoff.

Definition State_name (st : State) : string :=
  match st with
  | Starting => "starting"
  | Running => "running"
  | Stopping => "stopping"
  | Stopped => "stopped"
  | Exited => "exited"
  | Backoff => "backoff"
  end.

Definition State_eqb (a b : State) : bool :=
  match a, b with
  | Starting, Starting | Running, Running | Stopping, Stopping
  | Stopped, Stopped | Exited, Exited | Backoff, Backoff => true
  | _, _ => false
  end.

(** A Go [error]: [None] is [nil], [Some msg] an error whose [Error()] is
    [msg]. *)
Definition error := option string.

(** ** Data model *)

(** A channel is identified by a number; a [nil] channel is [None]. *)
Definition chan := nat.

Record Command : Set := mkCommand {
  Name : string;
  Response : option chan
}.

(** An [io.Writer] is identified by a number; [nil] is [None]. *)
Definition Writer := nat.

(** [exec.Cmd]: what [makeCommand] fills in, and [Process], which is [nil]
    until [Start] has succeeded and then holds the child's pid. *)
Record Cmd : Set := mkCmd {
  Path : string;
  Args : list string;
  Cmd_Stdout : option Writer;
  Cmd_Stderr : option Writer;
  Env : option (list string);
  Dir : string;
  Process : option Z
}.

Record Service : Set := mkService {
  Directory : string;
  Environment : option (list string);
  StartTimeout : Duration;
  StartRetries : Z;
  StopSignal : Signal;
  StopTimeout : Duration;
  StopRestart : bool;
  Stdout : option Writer;
  Stderr : option Writer;
  args : list string;
  command : option Cmd;
  state : State
}.

Definition set_state (st : State) (s : Service) : Service :=
  mkService (Directory s) (Environment s) (StartTimeout s) (StartRetries s)
    (StopSignal s) (StopTimeout s) (StopRestart s) (Stdout s) (Stderr s)
    (args s) (command s) st.

Definition set_command (c : option Cmd) (s : Service) : Service :=
  mkService (Directory s) (Environment s) (StartTimeout s) (StartRetries s)
    (StopSignal s) (StopTimeout s) (StopRestart s) (Stdout s) (Stderr s)
    (args s) c (state s).

(** [NewService].  [getwd] is the result of [os.Getwd()]: the directory or
    an error message.  The [if cwd, err := os.Getwd(); err == nil] statement
    declares its own [err]; the named result [err] is never assigned, so the
    bare [return] yields it as [nil] on both branches. *)
Definition NewService (getwd : string + string) (args : list string)
  : option Service * error :=
  let err_result : error := None in
  match getwd with
  | inl cwd =>
      (Some (mkService cwd None DefaultStartTimeout DefaultStartRetries
               DefaultStopSignal DefaultStopTimeout DefaultStopRestart
               None None args None Stopped),
       err_result)
  | inr _ => (None, err_result)
  end.

(** [Service.State]. *)
Definition get_State (s : Service) : State := state s.

(** [Service.Pid]: 0 unless Running or Stopping; otherwise
    [s.command.Process.Pid], which panics ([None]) on a nil [command] or a
    nil [Process]. *)
Definition Pid (s : Service) : option Z :=
  if negb (State_eqb (state s) Running) && negb (State_eqb (state s) Stopping)
  then Some 0
  else match command s with
       | Some c => Process c
       | None => None
       end.

(** [Service.makeCommand]: [exec.Command(s.args[0], s.args[1:]...)] panics
    on an empty [args]. *)
Definition makeCommand (s : Service) : option Cmd :=
  match args s with
  | [] => None
  | a0 :: _ =>
      Some (mkCmd a0 (args s) (Stdout s) (Stderr s) (Environment s)
              (Directory s) None)
  end.

(** ** Messages and effects of the control loop *)

(** The helper's notifications on the [states] channel. *)
Record ProcessState : Set := mkProcessState {
  ps_State : State;
  ps_Error : error
}.

(** What one [select] of the loop can receive. *)
Inductive Input : Set :=
| IState (ps : ProcessState)      (* state := <-states *)
| ICommand (c : Command)          (* newCommand := <-commands *)
| IKill (pid : Z).                (* pid := <-kill *)

(** What the loop does to the outside. *)
Inductive Effect : Set :=
| EEvent (st : State) (err : error)               (* events <- Event{s, state, err} *)
| EResponse (k : chan) (name : string) (err : error) (* cmd.Response <- Response{s, cmd.Name, err} *)
| ESpawn                                          (* go func() { lifecycle helper }() *)
| ESignal (pid : Z) (sig : Signal)                (* s.command.Process.Signal(s.StopSignal) *)
| EArmKill (pid : Z)                              (* go func() { Sleep(StopTimeout); kill <- pid }() *)
| EKill (pid : Z).                                (* s.command.Process.Kill() *)

(** Go's [int] is 64 bits wide; [retries++] wraps. *)
Definition int_wrap (z : Z) : Z := (z + 2 ^ 63) mod 2 ^ 64 - 2 ^ 63.

(** The [Service] together with the locals of [Run] that its closures
    capture.  [lcommand] is the command in flight ([var command *Command]). *)
Record Loop : Set := mkLoop {
  svc : Service;
  lcommand : option Command;
  retries : Z
}.

(** ** The monad of the loop body *)

Definition M (A : Type) : Type := Loop -> option (A * Loop * list Effect).

Definition ret {A : Type} (a : A) : M A := fun l => Some (a, l, []).

Definition bind {A B : Type} (m : M A) (k : A -> M B) : M B := fun l =>
  match m l with
  | None => None
  | Some (a, l1, o1) =>
      match k a l1 with
      | None => None
      | Some (b, l2, o2) => Some (b, l2, o1 ++ o2)
      end
  end.

Declare Scope loop_scope.
Delimit Scope loop_scope with loop.
Notation "x <- m ;; k" := (bind m (fun x => k))
  (at level 61, m at next level, right associativity) : loop_scope.
Notation "m ;; k" := (bind m (fun _ => k))
  (at level 61, right associativity) : loop_scope.
Open Scope loop_scope.

Definition panic {A : Type} : M A := fun _ => None.
Definition get : M Loop := fun l => Some (l, l, []).
Definition put (l : Loop) : M unit := fun _ => Some (tt, l, []).
Definition emit (e : Effect) : M unit := fun l => Some (tt, l, [e]).
Definition lift_option {A : Type} (o : option A) : M A :=
  match o with Some a => ret a | None => panic end.

Definition put_state (st : State) : M unit :=
  l <- get ;; put (mkLoop (set_state st (svc l)) (lcommand l) (retries l)).
Definition put_command (c : option Command) : M unit :=
  l <- get ;; put (mkLoop (svc l) c (retries l)).
Definition put_retries (r : Z) : M unit :=
  l <- get ;; put (mkLoop (svc l) (lcommand l) r).

(** ** The closures of [Run] *)

(** [Command.respond]: nothing is sent on a nil sink. *)
Definition respond (cmd : Command) (err : error) : M unit :=
  match Response cmd with
  | Some k => emit (EResponse k (Name cmd) err)
  | None => ret tt
  end.

Definition sendResponse (err : error) : M unit :=
  l <- get ;;
  match lcommand l with
  | Some c =>
      match Response c with
      | Some _ => respond c err
      | None => ret tt
      end ;;
      put_command None
  | None => ret tt
  end.

Definition sendEvent (st : State) (err : error) : M unit :=
  put_state st ;;
  emit (EEvent st err) ;;
  l <- get ;;
  match lcommand l with
  | None => ret tt
  | Some c =>
      if (Name c =s Restart) || (Name c =s Start) then
        if State_eqb st Running then sendResponse None
        else if State_eqb st Exited then sendResponse err
        else ret tt
      else if Name c =s Stop then
        if State_eqb st Stopped then sendResponse None
        else if State_eqb st Exited then sendResponse err
        else ret tt
      else ret tt
  end.

(** [fmt.Sprintf("invalid state transition: %s -> %s", s.state, state)]. *)
Definition invalidStateError (st : State) : M error :=
  l <- get ;;
  ret (Some (("invalid state transition: " ++ State_name (state (svc l))
              ++ " -> " ++ State_name st)%string)).

Definition start : M unit :=
  l <- get ;;
  let st := state (svc l) in
  if negb (State_eqb st Stopped) && negb (State_eqb st Exited)
     && negb (State_eqb st Backoff)
  then e <- invalidStateError Starting ;; sendResponse e
  else sendEvent Starting None ;; emit ESpawn.

Definition stop : M unit :=
  l <- get ;;
  if negb (State_eqb (state (svc l)) Running)
  then e <- invalidStateError Stopping ;; sendResponse e
  else
    sendEvent Stopping None ;;
    l1 <- get ;;
    pid <- lift_option (Pid (svc l1)) ;;
    c <- lift_option (command (svc l1)) ;;
    p <- lift_option (Process c) ;;
    emit (ESignal p (StopSignal (svc l1))) ;;
    emit (EArmKill pid).

Definition shouldShutdown (l : Loop) : bool :=
  match lcommand l with
  | Some c => Name c =s Shutdown
  | None => false
  end.

Definition shouldQuit (l : Loop) : bool :=
  shouldShutdown l
  && (State_eqb (state (svc l)) Stopped || State_eqb (state (svc l)) Exited).

(** ** One iteration of the [select] *)

Definition on_state (ps : ProcessState) : M unit :=
  match ps_State ps with
  | Running =>
      l <- get ;;
      if shouldShutdown l then stop else sendEvent Running None
  | Exited =>
      l <- get ;;
      if State_eqb (state (svc l)) Stopping then sendEvent Stopped None
      else
        sendEvent Exited (ps_Error ps) ;;
        l1 <- get ;;
        if StopRestart (svc l1) then start else ret tt
  | Backoff =>
      l <- get ;;
      if State_eqb (state (svc l)) Stopping then sendEvent Stopped None
      else if retries l <? StartRetries (svc l) then
        sendEvent Backoff (ps_Error ps) ;;
        start ;;
        l1 <- get ;;
        put_retries (int_wrap (retries l1 + 1))
      else
        sendEvent Exited (ps_Error ps) ;;
        put_retries 0
  | _ => ret tt
  end.

Definition dispatch : M unit :=
  l <- get ;;
  match lcommand l with
  | None => ret tt
  | Some c =>
      if Name c =s Start then start
      else if Name c =s Stop then stop
      else if Name c =s Restart then
        match state (svc l) with
        | Running => stop
        | Stopped => start
        | Exited => start
        | _ => e <- invalidStateError Stopping ;; sendResponse e
        end
      else if Name c =s Shutdown then
        match state (svc l) with
        | Running => stop
        | Backoff => put_state Exited
        | _ => ret tt
        end
      else ret tt
  end.

Definition on_command (newCommand : Command) : M unit :=
  l <- get ;;
  match lcommand l with
  | Some c =>
      if Name newCommand =s Shutdown then
        respond c (Some "service is shuttind down") ;;
        put_command (Some newCommand) ;;
        dispatch
      else
        respond newCommand (Some "command %s is currently executing")
  | None =>
      put_command (Some newCommand) ;;
      dispatch
  end.

Definition on_kill (pid : Z) : M unit :=
  l <- get ;;
  cur <- lift_option (Pid (svc l)) ;;
  if pid =? cur then
    c <- lift_option (command (svc l)) ;;
    p <- lift_option (Process c) ;;
    emit (EKill p)
  else ret tt.

Definition handle (i : Input) : M unit :=
  match i with
  | IState ps => on_state ps
  | ICommand c => on_command c
  | IKill pid => on_kill pid
  end.

(** ** [Run] over a sequence of received messages *)

Inductive Status : Set :=
| Returned      (* the loop condition failed and [Run] returned *)
| Selecting.    (* [Run] is blocked in [select], the messages are used up *)

(** The statement after the loop: [if command != nil { command.respond(s, nil) }]. *)
Definition finish : M unit :=
  l <- get ;;
  match lcommand l with
  | Some c => respond c None
  | None => ret tt
  end.

(** [for !shouldQuit() { select { ... } }] followed by [finish]. *)
Fixpoint Run_loop (ins : list Input) (l : Loop)
  : option (Status * Loop * list Effect) :=
  if shouldQuit l then
    match finish l with
    | Some (_, l1, o) => Some (Returned, l1, o)
    | None => None
    end
  else
    match ins with
    | [] => Some (Selecting, l, [])
    | i :: rest =>
        match handle i l with
        | None => None
        | Some (_, l1, o1) =>
            match Run_loop rest l1 with
            | None => None
            | Some (st, l2, o2) => Some (st, l2, o1 ++ o2)
            end
        end
    end.

Definition Run (s : Service) (ins : list Input)
  : option (Status * Loop * list Effect) :=
  Run_loop ins (mkLoop s None 0).

(** Projections of a trace. *)
Definition events (o : list Effect) : list (State * error) :=
  flat_map (fun e => match e with EEvent st err => [(st, err)] | _ => [] end) o.

Definition responses (o : list Effect) : list (chan * string * error) :=
  flat_map (fun e => match e with
                     | EResponse k n err => [(k, n, err)]
                     | _ => []
                     end) o.

Definition kills (o : list Effect) : list Z :=
  flat_map (fun e => match e with EKill p => [p] | _ => [] end) o.

(** ** The lifecycle helper

    The goroutine that [start] spawns, together with the timer goroutine it
    spawns itself.  Each goroutine is a program counter; the buffered
    channels [waitOver] and [checkOver] (capacity 1) are their contents.
    A step is one statement of one goroutine; which goroutine moves, when
    the child exits and whether [Start] succeeds are chosen by the
    schedule. *)
Module Lifecycle.

Inductive MainPc : Set :=
| MLaunch                          (* at s.command = s.makeCommand(); s.command.Start() *)
| MWait                            (* in s.command.Wait() *)
| MSendWaitOver (exitErr : error)  (* at waitOver <- true *)
| MRecvCheck (exitErr : error)     (* at check := <-checkOver *)
| MPost (ps : ProcessState)        (* at states <- ProcessState{...} *)
| MDone.                           (* returned, the deferred closes have run *)

Inductive TimerPc : Set :=
| TNone                  (* not spawned *)
| TSleep                 (* in time.Sleep(s.StartTimeout), then at the select *)
| TPostRunning           (* default case, at states <- ProcessState{Running, nil} *)
| TSendCheck (b : bool)  (* at checkOver <- b *)
| TDone.

Record Helper : Set := mkHelper {
  main : MainPc;
  timer : TimerPc;
  waitOver : option bool;
  checkOver : option bool
}.

Definition hinit : Helper := mkHelper MLaunch TNone None None.

Inductive HAction : Set :=
| ALaunch (r : Z + string)  (* main: makeCommand, then Start() yields a pid or fails *)
| AExit (exitErr : error)   (* main: the child has exited and Wait() returns *)
| AMain                     (* main: its next operation on waitOver / checkOver *)
| ATimer                    (* timer: the sleep is over / its next operation on checkOver *)
| APostTimer                (* the loop receives the timer's send on states *)
| APostMain.                (* the loop receives main's send on states *)

Inductive HResult : Set :=
| HOk (h : Helper) (s : Service) (post : option ProcessState)
| HBlocked     (* the goroutine cannot take this step now *)
| HPanic.      (* runtime panic *)

Definition normal_msg (exitErr : error) : string :=
  match exitErr with
  | None => "process exited normally with success"
  | Some e => "process exited normally with failure: " ++ e
  end%string.

Definition premature_msg (exitErr : error) : string :=
  match exitErr with
  | None => "process exited prematurely with success"
  | Some e => "process exited prematurely with failure: " ++ e
  end%string.

Definition with_Process (c : Cmd) (p : option Z) : Cmd :=
  mkCmd (Path c) (Args c) (Cmd_Stdout c) (Cmd_Stderr c) (Env c) (Dir c) p.

(** [waitOver] and [checkOver] are closed once main has returned from the
    branch that made them. *)
Definition closed (h : Helper) : bool :=
  match main h, timer h with
  | MDone, TNone => false
  | MDone, _ => true
  | _, _ => false
  end.

(** One step.  The operating system hands out positive pids. *)
Definition hstep (s : Service) (h : Helper) (a : HAction) : HResult :=
  match a with
  | ALaunch r =>
      match main h with
      | MLaunch =>
          match makeCommand s with
          | None => HPanic
          | Some c =>
              match r with
              | inl pid =>
                  if 0 <? pid then
                    HOk (mkHelper MWait TSleep None None)
                        (set_command (Some (with_Process c (Some pid))) s) None
                  else HBlocked
              | inr err =>
                  HOk (mkHelper (MPost (mkProcessState Exited (Some err)))
                         (timer h) (waitOver h) (checkOver h))
                      (set_command (Some c) s) None
              end
          end
      | _ => HBlocked
      end
  | AExit exitErr =>
      match main h with
      | MWait =>
          HOk (mkHelper (MSendWaitOver exitErr) (timer h) (waitOver h)
                 (checkOver h)) s None
      | _ => HBlocked
      end
  | AMain =>
      match main h with
      | MSendWaitOver exitErr =>
          match waitOver h with
          | None =>
              HOk (mkHelper (MRecvCheck exitErr) (timer h) (Some true)
                     (checkOver h)) s None
          | Some _ => HBlocked
          end
      | MRecvCheck exitErr =>
          match checkOver h with
          | Some check =>
              let ps :=
                if check
                then mkProcessState Exited (Some (normal_msg exitErr))
                else mkProcessState Backoff (Some (premature_msg exitErr)) in
              HOk (mkHelper (MPost ps) (timer h) (waitOver h) None) s None
          | None => HBlocked
          end
      | _ => HBlocked
      end
  | ATimer =>
      match timer h with
      | TSleep =>
          if closed h then
            HOk (mkHelper (main h) (TSendCheck false) (waitOver h)
                   (checkOver h)) s None
          else
            match waitOver h with
            | Some _ =>
                HOk (mkHelper (main h) (TSendCheck false) None (checkOver h))
                    s None
            | None =>
                HOk (mkHelper (main h) TPostRunning None (checkOver h)) s None
            end
      | TSendCheck b =>
          if closed h then HPanic
          else
            match checkOver h with
            | None =>
                HOk (mkHelper (main h) TDone (waitOver h) (Some b)) s None
            | Some _ => HBlocked
            end
      | _ => HBlocked
      end
  | APostTimer =>
      match timer h with
      | TPostRunning =>
          HOk (mkHelper (main h) (TSendCheck true) (waitOver h) (checkOver h))
              s (Some (mkProcessState Running None))
      | _ => HBlocked
      end
  | APostMain =>
      match main h with
      | MPost ps =>
          HOk (mkHelper MDone (timer h) (waitOver h) (checkOver h)) s (Some ps)
      | _ => HBlocked
      end
  end.

Definition post_list (p : option ProcessState) : list ProcessState :=
  match p with Some ps => [ps] | None => [] end.

(** A schedule run from a helper state: the service as the helper leaves
    it, the helper state, and what was posted on [states], in order.
    [None] when some step of the schedule is not enabled or panics. *)
Fixpoint hrun (s : Service) (h : Helper) (sched : list HAction)
  : option (Service * Helper * list ProcessState) :=
  match sched with
  | [] => Some (s, h, [])
  | a :: rest =>
      match hstep s h a with
      | HOk h1 s1 p =>
          match hrun s1 h1 rest with
          | Some (s2, h2, ps) => Some (s2, h2, post_list p ++ ps)
          | None => None
          end
      | _ => None
      end
  end.

(** The three sequences of one start attempt. *)
Inductive attempt_posts : list ProcessState -> Prop :=
| posts_running_exited (exitErr : error) :
    attempt_posts [mkProcessState Running None;
                   mkProcessState Exited (Some (normal_msg exitErr))]
| posts_backoff (exitErr : error) :
    attempt_posts [mkProcessState Backoff (Some (premature_msg exitErr))]
| posts_launch_failure (err : string) :
    attempt_posts [mkProcessState Exited (Some err)].

(** What has been posted in each configuration a helper can be in. *)
Inductive hinv : Helper -> list ProcessState -> Prop :=
| hinv_init : hinv hinit []
| hinv_failed err :
    hinv (mkHelper (MPost (mkProcessState Exited (Some err))) TNone None None) []
| hinv_failed_done err :
    hinv (mkHelper MDone TNone None None) [mkProcessState Exited (Some err)]
| hinv_alive m t w :
    alive_main m w ->
    t = TSleep \/ t = TPostRunning ->
    hinv (mkHelper m t w None) []
| hinv_running m t w c :
    alive_main m w ->
    (t = TSendCheck true /\ c = None) \/ (t = TDone /\ c = Some true) ->
    hinv (mkHelper m t w c) [mkProcessState Running None]
| hinv_late e :
    hinv (mkHelper (MPost (mkProcessState Exited (Some (normal_msg e))))
            TDone (Some true) None)
         [mkProcessState Running None]
| hinv_late_done e :
    hinv (mkHelper MDone TDone (Some true) None)
         [mkProcessState Running None;
          mkProcessState Exited (Some (normal_msg e))]
| hinv_early e t c :
    (t = TSendCheck false /\ c = None) \/ (t = TDone /\ c = Some false) ->
    hinv (mkHelper (MRecvCheck e) t None c) []
| hinv_backoff e :
    hinv (mkHelper (MPost (mkProcessState Backoff (Some (premature_msg e))))
            TDone None None) []
| hinv_backoff_done e :
    hinv (mkHelper MDone TDone None None)
         [mkProcessState Backoff (Some (premature_msg e))]
with alive_main : MainPc -> option bool -> Prop :=
| alive_wait : alive_main MWait None
| alive_send e : alive_main (MSendWaitOver e) None
| alive_recv e : alive_main (MRecvCheck e) (Some true).

(** Steps left before both goroutines have finished. *)
Definition rank (h : Helper) : nat :=
  (match main h with
   | MLaunch => 8 | MWait => 4 | MSendWaitOver _ => 3 | MRecvCheck _ => 2
   | MPost _ => 1 | MDone => 0
   end
   + match timer h with
     | TNone => 0 | TSleep => 3 | TPostRunning => 2 | TSendCheck _ => 1
     | TDone => 0
     end)%nat.

End Lifecycle.

(** The loop only ever writes the [state] field of the service. *)
Definition only_state (s s1 : Service) : Prop := s1 = set_state (state s1) s.

(** The states in which no start attempt is under way. *)
Definition idle (st : State) : Prop :=
  st = Stopped \/ st = Exited \/ st = Backoff.

(** What [Command.respond] sends. *)
Definition reply (c : Command) (err : error) : list Effect :=
  match Response c with
  | Some k => [EResponse k (Name c) err]
  | None => []
  end.

(** Everything in a trace but the responses. *)
Definition actions (o : list Effect) : list Effect :=
  filter (fun e => match e with EResponse _ _ _ => false | _ => true end) o.

(** ** The loop together with its goroutines

    The loop, the lifecycle helpers it has spawned and the stop timers it
    has armed.  A helper writes [s.command] when it launches the child; the
    loop reads it only in [stop] and in the kill case, both behind a test of
    [s.state], so the interleaving is taken at the granularity of one helper
    statement and one loop iteration. *)
Module System.
Import Lifecycle.

Record Sys : Set := mkSys {
  loop : Loop;
  helpers : list Helper;   (* the helper goroutines that have not returned *)
  timers : list Z;         (* the pids held by stop timers that have not fired *)
  returned : bool          (* [Run] has returned and closed [states] and [kill] *)
}.

Inductive SAction : Set :=
| SCommand (c : Command)            (* a caller's send on commands is received *)
| SKill (n : nat)                   (* the n-th stop timer fires and its pid is received *)
| SHelper (n : nat) (a : HAction)   (* the n-th helper takes a step *)
| SReturn.                          (* the loop condition fails and Run returns *)

Inductive SResult : Set :=
| SOk (y : Sys) (o : list Effect)
| SBlocked
| SPanic.

Definition init_sys (s : Service) : Sys :=
  mkSys (mkLoop s None 0) [] [] false.

Definition spawned (o : list Effect) : list Helper :=
  flat_map (fun e => match e with ESpawn => [hinit] | _ => [] end) o.

Definition armed (o : list Effect) : list Z :=
  flat_map (fun e => match e with EArmKill pid => [pid] | _ => [] end) o.

Fixpoint remove_nth {A : Type} (n : nat) (xs : list A) : list A :=
  match n, xs with
  | _, [] => []
  | O, _ :: xs' => xs'
  | S n', x :: xs' => x :: remove_nth n' xs'
  end.

Fixpoint replace_nth {A : Type} (n : nat) (x' : A) (xs : list A) : list A :=
  match n, xs with
  | _, [] => []
  | O, _ :: xs' => x' :: xs'
  | S n', x :: xs' => x :: replace_nth n' x' xs'
  end.

(** A helper that has returned is no longer a goroutine. *)
Definition update_helper (n : nat) (h : Helper) (hs : list Helper)
  : list Helper :=
  match main h with
  | MDone => remove_nth n hs
  | _ => replace_nth n h hs
  end.

Definition with_svc (s : Service) (l : Loop) : Loop :=
  mkLoop s (lcommand l) (retries l).

(** The loop, blocked in [select], receives [i]. *)
Definition receive (i : Input) (l : Loop) (hs : list Helper) (ts : list Z)
  : SResult :=
  if shouldQuit l then SBlocked
  else
    match handle i l with
    | None => SPanic
    | Some (_, l1, o) => SOk (mkSys l1 (hs ++ spawned o) (ts ++ armed o) false) o
    end.

Definition sys_step (y : Sys) (a : SAction) : SResult :=
  match a with
  | SCommand c =>
      if returned y then SBlocked
      else receive (ICommand c) (loop y) (helpers y) (timers y)
  | SKill n =>
      match nth_error (timers y) n with
      | None => SBlocked
      | Some pid =>
          if returned y then
            (* the send on the closed channel panics; the timer recovers *)
            SOk (mkSys (loop y) (helpers y) (remove_nth n (timers y)) true) []
          else receive (IKill pid) (loop y) (helpers y) (remove_nth n (timers y))
      end
  | SHelper n a =>
      match nth_error (helpers y) n with
      | None => SBlocked
      | Some h =>
          match hstep (svc (loop y)) h a with
          | HBlocked => SBlocked
          | HPanic => SPanic
          | HOk h1 s1 None =>
              SOk (mkSys (with_svc s1 (loop y)) (update_helper n h1 (helpers y))
                     (timers y) (returned y)) []
          | HOk h1 s1 (Some ps) =>
              if returned y then SPanic    (* send on the closed states channel *)
              else receive (IState ps) (with_svc s1 (loop y))
                     (update_helper n h1 (helpers y)) (timers y)
          end
      end
  | SReturn =>
      if returned y then SBlocked
      else if shouldQuit (loop y) then
        match finish (loop y) with
        | Some (_, l1, o) => SOk (mkSys l1 (helpers y) (timers y) true) o
        | None => SPanic
        end
      else SBlocked
  end.

Fixpoint sys_run (y : Sys) (acts : list SAction) : option (Sys * list Effect) :=
  match acts with
  | [] => Some (y, [])
  | a :: rest =>
      match sys_step y a with
      | SOk y1 o1 =>
          match sys_run y1 rest with
          | Some (y2, o2) => Some (y2, o1 ++ o2)
          | None => None
          end
      | _ => None
      end
  end.

(** The states of a run that starts from the service [s0]. *)
Inductive reachable (s0 : Service) : Sys -> Prop :=
| reach_init : reachable s0 (init_sys s0)
| reach_step y a y1 o :
    reachable s0 y -> sys_step y a = SOk y1 o -> reachable s0 y1.

(** The child-process handle is usable: [s.command] and its [Process] are
    non-nil. *)
Definition live_handle (s : Service) : Prop :=
  exists c pid, command s = Some c /\ Process c = Some pid /\ 0 < pid.

(** The helper has posted [Running] and not yet its final state. *)
Definition ran (h : Helper) : Prop :=
  exists ps, hinv h (mkProcessState Running None :: ps) /\ main h <> MDone.

(** How the state of the service constrains the helpers: none while no
    attempt is under way, one that has not returned while Starting, one that
    has posted Running while Running or Stopping and then the handle is
    usable. *)
Definition state_inv (s : Service) (hs : list Helper) (ret : bool) : Prop :=
  match state s with
  | Stopped | Exited | Backoff => hs = []
  | Starting =>
      exists h ps, hs = [h] /\ hinv h ps /\ main h <> MDone /\ ret = false /\
                   (timer h <> TNone -> live_handle s)
  | Running | Stopping =>
      exists h, hs = [h] /\ ran h /\ ret = false /\ live_handle s
  end.

(** The invariant of the loop and its goroutines. *)
Definition sys_inv (y : Sys) : Prop :=
  Forall (fun pid => 0 < pid) (timers y) /\
  state_inv (svc (loop y)) (helpers y) (returned y).

End System.

(** ** The transition table of the specification *)

(** The cells of the table that are marked invalid, by state and command
    name. *)
Definition spec_invalid (st : State) (name : string) : bool :=
  match st with
  | Stopped => name =s Stop
  | Starting => (name =s Start) || (name =s Stop) || (name =s Restart)
  | Running => name =s Start
  | Stopping => (name =s Start) || (name =s Stop) || (name =s Restart)
  | Exited => name =s Stop
  | Backoff => (name =s Stop) || (name =s Restart)
  end.

(** The state a rejected command was heading for: [start] reports
    [Starting], [stop] and [restart] report [Stopping]. *)
Definition attempted (name : string) : State :=
  if name =s Start then Starting else Stopping.

(** ** Commands without a reply sink *)

(** Every sink selected by [dead] is replaced by [nil]. *)
Definition mute_sink (dead : chan -> bool) (k : option chan) : option chan :=
  match k with
  | Some c => if dead c then None else Some c
  | None => None
  end.

Definition mute_command (dead : chan -> bool) (c : Command) : Command :=
  mkCommand (Name c) (mute_sink dead (Response c)).

Definition mute_loop (dead : chan -> bool) (l : Loop) : Loop :=
  mkLoop (svc l) (option_map (mute_command dead) (lcommand l)) (retries l).

Definition mute_input (dead : chan -> bool) (i : Input) : Input :=
  match i with
  | ICommand c => ICommand (mute_command dead c)
  | _ => i
  end.

(** The trace without the responses sent on the selected sinks. *)
Definition mute_trace (dead : chan -> bool) (o : list Effect) : list Effect :=
  filter (fun e => match e with
                   | EResponse k _ _ => negb (dead k)
                   | _ => true
                   end) o.


Definition mute_result {A : Type} (dead : chan -> bool)
  (r : option (A * Loop * list Effect)) : option (A * Loop * list Effect) :=
  match r with
  | Some (a, l, o) => Some (a, mute_loop dead l, mute_trace dead o)
  | None => None
  end.

(** [m1] run on the muted loop does what [m2] does, muted. *)
Definition muted {A : Type} (dead : chan -> bool) (m1 m2 : M A) : Prop :=
  forall l, m1 (mute_loop dead l) = mute_result dead (m2 l).

(** ** Scenario data *)

(** The service [NewService] builds for [sleep 10] in directory [/]. *)
Definition sleeper : Service :=
  mkService "/" None DefaultStartTimeout DefaultStartRetries DefaultStopSignal
    DefaultStopTimeout DefaultStopRestart None None ["sleep"; "10"] None
    Stopped.

(** Its handle once the child runs with pid [pid]. *)
Definition child (pid : Z) : Cmd :=
  mkCmd "sleep" ["sleep"; "10"] None None None "/" (Some pid).

(** The loop with [sleeper] in state [st], child [pid] and [c] in flight. *)
Definition sleeper_loop (st : State) (pid : Z) (c : option Command) : Loop :=
  mkLoop (set_state st (set_command (Some (child pid)) sleeper)) c 0.

(** A command whose reply sink is channel [k]. *)
Definition ask (name : string) (k : chan) : Input :=
  ICommand (mkCommand name (Some k)).

Definition premature : Input :=
  IState (mkProcessState Backoff
            (Some (Lifecycle.premature_msg (Some "exit status 1")))).

Definition is_running : Input := IState (mkProcessState Running None).

(** The child outlives the start window and exits later with status 1. *)
Definition late_exit : list Lifecycle.HAction :=
  [Lifecycle.ALaunch (inl 42); Lifecycle.ATimer; Lifecycle.APostTimer;
   Lifecycle.ATimer; Lifecycle.AExit (Some "exit status 1");
   Lifecycle.AMain; Lifecycle.AMain; Lifecycle.APostMain].

(** The child exits with status 0 before the timer wakes up. *)
Definition early_exit : list Lifecycle.HAction :=
  [Lifecycle.ALaunch (inl 42); Lifecycle.AExit None; Lifecycle.AMain;
   Lifecycle.ATimer; Lifecycle.ATimer; Lifecycle.AMain; Lifecycle.APostMain].

(** The launch fails. *)
Definition failed_launch : list Lifecycle.HAction :=
  [Lifecycle.ALaunch (inr "exec: not found"); Lifecycle.APostMain].

(** A [start], the launch of child 42, the start window, a [stop] and the
    child's exit. *)
Definition start_then_stop : list System.SAction :=
  [System.SCommand (mkCommand Start (Some 1%nat));
   System.SHelper 0 (Lifecycle.ALaunch (inl 42));
   System.SHelper 0 Lifecycle.ATimer;
   System.SHelper 0 Lifecycle.APostTimer;
   System.SCommand (mkCommand Stop (Some 1%nat));
   System.SHelper 0 Lifecycle.ATimer;
   System.SHelper 0 (Lifecycle.AExit None);
   System.SHelper 0 Lifecycle.AMain;
   System.SHelper 0 Lifecycle.AMain;
   System.SHelper 0 Lifecycle.APostMain].

(** A [start], the launch of child 42, a [shutdown] while Starting, and the
    start window elapsing with the child alive. *)
Definition shutdown_while_starting : list System.SAction :=
  [System.SCommand (mkCommand Start (Some 1%nat));
   System.SHelper 0 (Lifecycle.ALaunch (inl 42));
   System.SCommand (mkCommand Shutdown (Some 2%nat));
   System.SHelper 0 Lifecycle.ATimer;
   System.SHelper 0 Lifecycle.APostTimer].

(** A [start], the launch of child 42 and the start window. *)
Definition start_to_running : list System.SAction :=
  [System.SCommand (mkCommand Start (Some 1%nat));
   System.SHelper 0 (Lifecycle.ALaunch (inl 42));
   System.SHelper 0 Lifecycle.ATimer;
   System.SHelper 0 Lifecycle.APostTimer].

(** Where that leaves the loop and its helper. *)
Definition running_sys : System.Sys :=
  Eval vm_compute in
    match System.sys_run (System.init_sys sleeper) start_to_running with
    | Some (y, _) => y
    | None => System.init_sys sleeper
    end.

(** ** Shape of a trace *)

(** The trace follows the protocol of [start] and [stop]: a Starting event
    is at once followed by the spawn of a helper, a Stopping event by the
    stop signal [sig] to some pid and the arming of a timer with that pid,
    and no spawn, signal or timer occurs anywhere else. *)
Fixpoint protocol_ok (sig : Signal) (o : list Effect) : bool :=
  match o with
  | [] => true
  | EEvent Starting _ :: ESpawn :: rest => protocol_ok sig rest
  | EEvent Stopping _ :: ESignal p sg :: EArmKill q :: rest =>
      (p =? q) && (sg =? sig) && protocol_ok sig rest
  | EEvent Starting _ :: _ => false
  | EEvent Stopping _ :: _ => false
  | ESpawn :: _ => false
  | ESignal _ _ :: _ => false
  | EArmKill _ :: _ => false
  | _ :: rest => protocol_ok sig rest
  end.

(** The state named by the last event of a trace, [st] if it has none. *)
Definition last_state (o : list Effect) (st : State) : State :=
  last (map fst (events o)) st.

(** A command name the loop knows. *)
Definition known (name : string) : bool :=
  (name =s Start) || (name =s Stop) || (name =s Restart) || (name =s Shutdown).

(** The range of Go's [int]. *)
Definition in_int (z : Z) : Prop := - 2 ^ 63 <= z < 2 ^ 63.

(** * The earlier iterations of [Run]

    The sources hold earlier iterations of the package beside the one
    modelled above.  They keep the command in flight in [lastCommand] and
    leave the loop through a buffered [quit] channel, on which a send can
    block.  Their loop bodies run in a monad over the loop state [L] with
    three outcomes. *)
Module Outcomes.

(** How a piece of a loop body ends: normally, in a runtime panic, or in
    a send that blocks for ever. *)
Inductive Outcome (L A : Type) : Type :=
| Done (a : A) (l : L) (o : list Effect)
| Panics
| Blocks.
Arguments Done {L A} a l o.
Arguments Panics {L A}.
Arguments Blocks {L A}.

Definition MO (L A : Type) : Type := L -> Outcome L A.

Definition retO {L A : Type} (a : A) : MO L A := fun l => Done a l [].

Definition bindO {L A B : Type} (m : MO L A) (k : A -> MO L B) : MO L B :=
  fun l =>
    match m l with
    | Done a l1 o1 =>
        match k a l1 with
        | Done b l2 o2 => Done b l2 (o1 ++ o2)
        | Panics => Panics
        | Blocks => Blocks
        end
    | Panics => Panics
    | Blocks => Blocks
    end.

Definition getO {L : Type} : MO L L := fun l => Done l l [].
Definition putO {L : Type} (l : L) : MO L unit := fun _ => Done tt l [].
Definition emitO {L : Type} (e : Effect) : MO L unit := fun l => Done tt l [e].
Definition deref {L A : Type} (o : option A) : MO L A :=
  match o with Some a => retO a | None => fun _ => Panics end.

(** [Command.respond]. *)
Definition respondO {L : Type} (cmd : Command) (err : error) : MO L unit :=
  match Response cmd with
  | Some k => emitO (EResponse k (Name cmd) err)
  | None => retO tt
  end.

(** How a run over a sequence of received messages ends. *)
Inductive Result (L : Type) : Type :=
| Ran (st : Status) (l : L) (o : list Effect)
| Panicked
| Blocked
| NotEnabled.   (* the sequence has a receive from an empty [quit] *)
Arguments Ran {L} st l o.
Arguments Panicked {L}.
Arguments Blocked {L}.
Arguments NotEnabled {L}.

(** One iteration [m] followed by the rest of the run. *)
Definition stepO {L : Type} (m : MO L unit) (l : L) (k : L -> Result L)
  : Result L :=
  match m l with
  | Done _ l1 o1 =>
      match k l1 with
      | Ran st l2 o2 => Ran st l2 (o1 ++ o2)
      | r => r
      end
  | Panics => Panicked
  | Blocks => Blocked
  end.

(** What one [select] of these iterations can receive; [JQuit] is the
    receive from [quit]. *)
Inductive InputO (P : Type) : Type :=
| JState (ps : P)
| JCommand (c : Command)
| JQuit
| JKill (pid : Z).
Arguments JState {P} ps.
Arguments JCommand {P} c.
Arguments JQuit {P}.
Arguments JKill {P} pid.

End Outcomes.

Declare Scope prev_scope.
Delimit Scope prev_scope with prev.
Notation "x <- m ;; k" := (Outcomes.bindO m (fun x => k))
  (at level 61, m at next level, right associativity) : prev_scope.
Notation "m ;; k" := (Outcomes.bindO m (fun _ => k))
  (at level 61, right associativity) : prev_scope.


(** ** The iteration before the last

    Its lifecycle helper is one goroutine that posts Running as soon as
    the child is launched. *)
Module Iteration3.
Import Outcomes.
Local Open Scope prev_scope.

(** The service and the locals of [Run]; [quit] is the number of values
    waiting in the [quit] channel, whose capacity is 2. *)
Record Loop3 : Set := mkLoop3 {
  svc3 : Service;
  lastCommand : option Command;
  retries3 : Z;
  quit : nat
}.

Definition M3 (A : Type) : Type := MO Loop3 A.

Definition put_state3 (st : State) : M3 unit :=
  l <- getO ;;
  putO (mkLoop3 (set_state st (svc3 l)) (lastCommand l) (retries3 l) (quit l)).
Definition put_lastCommand (c : option Command) : M3 unit :=
  l <- getO ;; putO (mkLoop3 (svc3 l) c (retries3 l) (quit l)).
Definition put_retries3 (r : Z) : M3 unit :=
  l <- getO ;; putO (mkLoop3 (svc3 l) (lastCommand l) r (quit l)).

(** [quit <- true]: blocks once two values are waiting. *)
Definition send_quit : M3 unit := fun l =>
  if (quit l <? 2)%nat
  then Done tt (mkLoop3 (svc3 l) (lastCommand l) (retries3 l) (S (quit l))) []
  else Blocks.

Definition sendEvent (st : State) (err : error) : M3 unit :=
  put_state3 st ;; emitO (EEvent st err).

Definition sendInvalidCmd (cmd : option Command) (st : State) : M3 unit :=
  match cmd with
  | Some c =>
      l <- getO ;;
      respondO c (Some ("invalid state transition: "
                       ++ State_name (state (svc3 l)) ++ " -> "
                       ++ State_name st)%string)
  | None => retO tt
  end.

Definition start (cmd : option Command) : M3 unit :=
  l <- getO ;;
  let st := state (svc3 l) in
  if negb (State_eqb st Stopped) && negb (State_eqb st Exited)
     && negb (State_eqb st Backoff)
  then sendInvalidCmd cmd Starting
  else sendEvent Starting None ;; emitO ESpawn.

Definition stop (cmd : option Command) : M3 unit :=
  l <- getO ;;
  if negb (State_eqb (state (svc3 l)) Running)
  then sendInvalidCmd cmd Stopping
  else
    sendEvent Stopping None ;;
    l1 <- getO ;;
    pid <- deref (Pid (svc3 l1)) ;;
    c <- deref (command (svc3 l1)) ;;
    p <- deref (Process c) ;;
    emitO (ESignal p (StopSignal (svc3 l1))) ;;
    emitO (EArmKill pid).

Definition shutdown (cmd lastCmd : option Command) : M3 unit :=
  match lastCmd with
  | Some c => respondO c (Some "service is shutting down")
  | None => retO tt
  end ;;
  l <- getO ;;
  if State_eqb (state (svc3 l)) Stopped || State_eqb (state (svc3 l)) Exited
  then send_quit
  else if State_eqb (state (svc3 l)) Running then stop cmd
  else retO tt.

Definition onRunning (cmd : option Command) : M3 unit :=
  sendEvent Running None ;;
  match cmd with
  | Some c =>
      if (Name c =s Start) || (Name c =s Restart) then respondO c None
      else if Name c =s Shutdown then stop cmd
      else retO tt
  | None => retO tt
  end.

Definition onStopped (cmd : option Command) : M3 unit :=
  sendEvent Stopped None ;;
  match cmd with
  | Some c =>
      if Name c =s Restart then start cmd
      else if Name c =s Stop then respondO c None
      else if Name c =s Shutdown then send_quit
      else retO tt
  | None => retO tt
  end.

Definition onExited (cmd : option Command) (err : error) : M3 unit :=
  sendEvent Exited err ;;
  l <- getO ;;
  if StopRestart (svc3 l) then start cmd else retO tt.

Definition onBackoff (cmd : option Command) (err : error) : M3 unit :=
  l <- getO ;;
  if retries3 l <? StartRetries (svc3 l) then
    sendEvent Backoff err ;;
    start cmd ;;
    l1 <- getO ;;
    put_retries3 (int_wrap (retries3 l1 + 1))
  else
    sendEvent Exited err ;;
    put_retries3 0.

Definition Input3 : Type := InputO ProcessState.

Definition on_state3 (ps : ProcessState) : M3 unit :=
  l <- getO ;;
  match ps_State ps with
  | Running => onRunning (lastCommand l)
  | Exited =>
      if State_eqb (state (svc3 l)) Stopping then onStopped (lastCommand l)
      else onExited (lastCommand l) (ps_Error ps)
  | Backoff => onBackoff (lastCommand l) (ps_Error ps)
  | _ => retO tt
  end ;;
  l1 <- getO ;;
  match lastCommand l1 with
  | Some c =>
      if (Name c =s Restart) && State_eqb (state (svc3 l1)) Running
      then put_lastCommand None
      else if negb (Name c =s Restart) && negb (Name c =s Shutdown)
      then put_lastCommand None
      else retO tt
  | None => retO tt
  end.

Definition on_command3 (command : Command) : M3 unit :=
  l <- getO ;;
  if match lastCommand l with
     | None => true
     | Some c => negb (Name c =s Shutdown)
     end
  then
    (if Name command =s Start then start (Some command)
     else if Name command =s Stop then stop (Some command)
     else if Name command =s Restart then stop (Some command)
     else if Name command =s Shutdown
          then shutdown (Some command) (lastCommand l)
     else retO tt) ;;
    put_lastCommand (Some command)
  else respondO command (Some "service is shutting down").

Definition on_quit3 : M3 unit :=
  l <- getO ;;
  match lastCommand l with
  | Some c => respondO c None
  | None => retO tt
  end.

Definition on_kill3 (pid : Z) : M3 unit :=
  l <- getO ;;
  cur <- deref (Pid (svc3 l)) ;;
  if pid =? cur then
    c <- deref (command (svc3 l)) ;;
    p <- deref (Process c) ;;
    emitO (EKill p)
  else retO tt.

Definition Result3 : Type := Result Loop3.

(** [for { select { ... } }], left by [break loop] in the [quit] case. *)
Fixpoint Run_loop3 (ins : list Input3) (l : Loop3) : Result3 :=
  match ins with
  | [] => Ran Selecting l []
  | JState ps :: rest => stepO (on_state3 ps) l (Run_loop3 rest)
  | JCommand c :: rest => stepO (on_command3 c) l (Run_loop3 rest)
  | JKill pid :: rest => stepO (on_kill3 pid) l (Run_loop3 rest)
  | JQuit :: _ =>
      match quit l with
      | O => NotEnabled
      | S n =>
          stepO on_quit3
            (mkLoop3 (svc3 l) (lastCommand l) (retries3 l) n)
            (fun l1 => Ran Returned l1 [])
      end
  end.

Definition Run3 (s : Service) (ins : list Input3) : Result3 :=
  Run_loop3 ins (mkLoop3 s None 0 0).

(** The lifecycle helper of this iteration, a single goroutine.  [launch]
    is what [Start] yields, [elapsed] the time from the launch to the
    return of [Wait], [exitErr] what [Wait] returns.  The result is the
    service as the helper leaves it and what it posts, in order; [None]
    when [makeCommand] panics. *)
Definition helper3 (s : Service) (launch : Z + string) (elapsed : Duration)
  (exitErr : error) : option (Service * list ProcessState) :=
  match makeCommand s with
  | None => None
  | Some c =>
      match launch with
      | inl pid =>
          Some (set_command (Some (Lifecycle.with_Process c (Some pid))) s,
                [mkProcessState Running None;
                 if elapsed <? StartTimeout s
                 then mkProcessState Backoff
                        (Some (Lifecycle.premature_msg exitErr))
                 else mkProcessState Exited
                        (Some (Lifecycle.normal_msg exitErr))])
      | inr err =>
          Some (set_command (Some c) s, [mkProcessState Exited (Some err)])
      end
  end.

End Iteration3.

(** ** The first iteration ([service.go])

    It has no Backoff state and no start window: events and state
    notifications carry no error, the helper is the method [startProcess],
    and the retry counter counts the restarts after an exit. *)
Module Iteration1.
Import Outcomes.
Local Open Scope prev_scope.

Definition DefaultRestart : bool := true.
Definition DefaultRetries : Z := 3.

(** The [Service] of this iteration.  [Restart_] is the field [Restart]
    (the name is taken by the command). *)
Record Service1 : Set := mkService1 {
  Directory1 : string;
  Environment1 : option (list string);
  StopSignal1 : Signal;
  StopTimeout1 : Duration;
  Restart_ : bool;
  Retries : Z;
  Stdout1 : option Writer;
  Stderr1 : option Writer;
  args1 : list string;
  command1 : option Cmd;
  state1 : State
}.

Definition set_state1 (st : State) (s : Service1) : Service1 :=
  mkService1 (Directory1 s) (Environment1 s) (StopSignal1 s) (StopTimeout1 s)
    (Restart_ s) (Retries s) (Stdout1 s) (Stderr1 s) (args1 s) (command1 s) st.

Definition set_command1 (c : option Cmd) (s : Service1) : Service1 :=
  mkService1 (Directory1 s) (Environment1 s) (StopSignal1 s) (StopTimeout1 s)
    (Restart_ s) (Retries s) (Stdout1 s) (Stderr1 s) (args1 s) c (state1 s).

(** [NewService]; as in the last iteration the named result [err] is
    shadowed and stays nil. *)
Definition NewService1 (getwd : string + string) (args : list string)
  : option Service1 * error :=
  match getwd with
  | inl cwd =>
      (Some (mkService1 cwd None DefaultStopSignal DefaultStopTimeout
               DefaultRestart DefaultRetries None None args None Stopped),
       None)
  | inr _ => (None, None)
  end.

(** [Service.Pid]. *)
Definition Pid1 (s : Service1) : option Z :=
  if negb (State_eqb (state1 s) Running) && negb (State_eqb (state1 s) Stopping)
  then Some 0
  else match command1 s with
       | Some c => Process c
       | None => None
       end.

(** [Service.makeCommand]. *)
Definition makeCommand1 (s : Service1) : option Cmd :=
  match args1 s with
  | [] => None
  | a0 :: _ =>
      Some (mkCmd a0 (args1 s) (Stdout1 s) (Stderr1 s) (Environment1 s)
              (Directory1 s) None)
  end.

(** [Service.startProcess].  [launch] is what [Start] yields.  The result
    is the service as the method leaves it, the states it posts (the
    deferred function posts Exited when the result [err] is not nil) and
    the error it returns; [None] when [makeCommand] panics. *)
Definition startProcess (s : Service1) (launch : Z + string)
  : option (Service1 * list State * error) :=
  match makeCommand1 s with
  | None => None
  | Some c =>
      match launch with
      | inr e =>
          let err : error := Some e in
          Some (set_command1 (Some c) s,
                match err with Some _ => [Exited] | None => [] end,
                err)
      | inl pid =>
          let err : error := None in
          Some (set_command1 (Some (Lifecycle.with_Process c (Some pid))) s,
                [Running; Exited]
                ++ match err with Some _ => [Exited] | None => [] end,
                err)
      end
  end.

(** The service and the locals of [Run]. *)
Record Loop1 : Set := mkLoop1 {
  svc1 : Service1;
  lastCommand1 : option Command;
  retries1 : Z;
  quit1 : nat
}.

Definition M1 (A : Type) : Type := MO Loop1 A.

Definition put_state1 (st : State) : M1 unit :=
  l <- getO ;;
  putO (mkLoop1 (set_state1 st (svc1 l)) (lastCommand1 l) (retries1 l)
          (quit1 l)).
Definition put_lastCommand1 (c : option Command) : M1 unit :=
  l <- getO ;; putO (mkLoop1 (svc1 l) c (retries1 l) (quit1 l)).
Definition put_retries1 (r : Z) : M1 unit :=
  l <- getO ;; putO (mkLoop1 (svc1 l) (lastCommand1 l) r (quit1 l)).

(** [quit <- true]: blocks once two values are waiting. *)
Definition send_quit1 : M1 unit := fun l =>
  if (quit1 l <? 2)%nat
  then Done tt (mkLoop1 (svc1 l) (lastCommand1 l) (retries1 l) (S (quit1 l))) []
  else Blocks.

Definition sendEvent (st : State) : M1 unit :=
  put_state1 st ;; emitO (EEvent st None).

Definition sendInvalidCmd (cmd : option Command) (st : State) : M1 unit :=
  match cmd with
  | Some c =>
      l <- getO ;;
      respondO c (Some ("invalid state transition: "
                        ++ State_name (state1 (svc1 l)) ++ " -> "
                        ++ State_name st)%string)
  | None => retO tt
  end.

Definition start (cmd : option Command) : M1 unit :=
  l <- getO ;;
  let st := state1 (svc1 l) in
  if negb (State_eqb st Stopped) && negb (State_eqb st Exited)
  then sendInvalidCmd cmd Starting
  else sendEvent Starting ;; emitO ESpawn.

Definition stop (cmd : option Command) : M1 unit :=
  l <- getO ;;
  if negb (State_eqb (state1 (svc1 l)) Running)
  then sendInvalidCmd cmd Stopping
  else
    sendEvent Stopping ;;
    l1 <- getO ;;
    pid <- deref (Pid1 (svc1 l1)) ;;
    c <- deref (command1 (svc1 l1)) ;;
    p <- deref (Process c) ;;
    emitO (ESignal p (StopSignal1 (svc1 l1))) ;;
    emitO (EArmKill pid).

Definition shutdown (cmd lastCmd : option Command) : M1 unit :=
  match lastCmd with
  | Some c => respondO c (Some "service is shutting down")
  | None => retO tt
  end ;;
  l <- getO ;;
  if State_eqb (state1 (svc1 l)) Stopped || State_eqb (state1 (svc1 l)) Exited
  then send_quit1
  else if State_eqb (state1 (svc1 l)) Running then stop cmd
  else retO tt.

Definition onRunning (cmd : option Command) : M1 unit :=
  sendEvent Running ;;
  match cmd with
  | Some c =>
      if (Name c =s Start) || (Name c =s Restart) then respondO c None
      else if Name c =s Shutdown then stop cmd
      else retO tt
  | None => retO tt
  end ;;
  put_retries1 0.

Definition onStopped (cmd : option Command) : M1 unit :=
  sendEvent Stopped ;;
  match cmd with
  | Some c =>
      if Name c =s Restart then start cmd
      else if Name c =s Stop then respondO c None
      else if Name c =s Shutdown then send_quit1
      else retO tt
  | None => retO tt
  end.

(** [onExited] gets the counter as an argument and tells whether it has
    started the process again. *)
Definition onExited (cmd : option Command) (retries : Z) : M1 bool :=
  sendEvent Exited ;;
  l <- getO ;;
  if Restart_ (svc1 l) && (retries <? Retries (svc1 l))
  then start cmd ;; retO true
  else retO false.

Definition Input1 : Type := InputO State.

Definition on_state1 (st : State) : M1 unit :=
  l <- getO ;;
  match st with
  | Running => onRunning (lastCommand1 l)
  | Exited =>
      if State_eqb (state1 (svc1 l)) Stopping then onStopped (lastCommand1 l)
      else
        again <- onExited (lastCommand1 l) (retries1 l) ;;
        if again : bool then
          l1 <- getO ;; put_retries1 (int_wrap (retries1 l1 + 1))
        else retO tt
  | _ => retO tt
  end ;;
  l1 <- getO ;;
  match lastCommand1 l1 with
  | Some c =>
      if (Name c =s Restart) && State_eqb (state1 (svc1 l1)) Running
      then put_lastCommand1 None
      else if negb (Name c =s Restart) && negb (Name c =s Shutdown)
      then put_lastCommand1 None
      else retO tt
  | None => retO tt
  end.

Definition on_command1 (command : Command) : M1 unit :=
  l <- getO ;;
  if match lastCommand1 l with
     | None => true
     | Some c => negb (Name c =s Shutdown)
     end
  then
    (if Name command =s Start then start (Some command)
     else if Name command =s Stop then stop (Some command)
     else if Name command =s Restart then stop (Some command)
     else if Name command =s Shutdown
          then shutdown (Some command) (lastCommand1 l)
     else retO tt) ;;
    put_lastCommand1 (Some command)
  else respondO command (Some "service is shutting down").

Definition on_quit1 : M1 unit :=
  l <- getO ;;
  match lastCommand1 l with
  | Some c => respondO c None
  | None => retO tt
  end.

Definition on_kill1 (pid : Z) : M1 unit :=
  l <- getO ;;
  cur <- deref (Pid1 (svc1 l)) ;;
  if pid =? cur then
    c <- deref (command1 (svc1 l)) ;;
    p <- deref (Process c) ;;
    emitO (EKill p)
  else retO tt.

Fixpoint Run_loop1 (ins : list Input1) (l : Loop1) : Result Loop1 :=
  match ins with
  | [] => Ran Selecting l []
  | JState st :: rest => stepO (on_state1 st) l (Run_loop1 rest)
  | JCommand c :: rest => stepO (on_command1 c) l (Run_loop1 rest)
  | JKill pid :: rest => stepO (on_kill1 pid) l (Run_loop1 rest)
  | JQuit :: _ =>
      match quit1 l with
      | O => NotEnabled
      | S n =>
          stepO on_quit1
            (mkLoop1 (svc1 l) (lastCommand1 l) (retries1 l) n)
            (fun l1 => Ran Returned l1 [])
      end
  end.

Definition Run1 (s : Service1) (ins : list Input1) : Result Loop1 :=
  Run_loop1 ins (mkLoop1 s None 0 0).

(** The trace of [n] exits that are each followed by a restart. *)
Fixpoint restarts (n : nat) : list Effect :=
  match n with
  | O => []
  | S m => EEvent Exited None :: EEvent Starting None :: ESpawn :: restarts m
  end.

End Iteration1.
(** * Properties *)

(** ** NewService *)

Lemma NewService_defaults (cwd : string) (argv : list string) :
  exists s,
    NewService (inl cwd) argv = (Some s, None) /\
    state s = Stopped /\ command s = None /\ args s = argv /\
    Directory s = cwd /\ Environment s = None /\
    StartTimeout s = 1000000000 /\ StartRetries s = 3 /\
    StopSignal s = SIGINT /\ StopTimeout s = 5000000000 /\
    StopRestart s = true /\ Stdout s = None /\ Stderr s = None.
Proof.
  eexists. split; [reflexivity|]. cbn. repeat split; reflexivity.
Qed.

(** C8.  When the working directory cannot be determined, [NewService]
    returns no service and no error either: the error of [os.Getwd] is
    bound to a variable local to the [if] statement and the named result
    stays nil. *)
Theorem NewService_getwd_error_is_lost (msg : string) (argv : list string) :
  NewService (inr msg) argv = (None, None).
Proof. reflexivity. Qed.

(** ** Evaluating the loop body *)

Ltac loop_unfold :=
  cbv beta iota zeta delta
    [handle on_state on_command on_kill dispatch start stop sendEvent
     sendResponse respond invalidStateError finish
     bind ret get put emit panic lift_option put_state put_command put_retries
     shouldShutdown shouldQuit Pid set_state State_eqb andb negb orb app
     svc lcommand retries ps_State ps_Error
     Directory Environment StartTimeout StartRetries StopSignal StopTimeout
     StopRestart Stdout Stderr args command state Name Response Process].

(** Unfolds the closures and splits on every test of a command name that
    gets in the way. *)
Ltac loop_eval :=
  loop_unfold;
  repeat match goal with
         | |- context [if ?n =s ?m then _ else _] =>
             destruct (n =s m) eqn:?; loop_unfold
         end.

Lemma State_eqb_eq (a b : State) : State_eqb a b = true <-> a = b.
Proof. destruct a, b; cbn; split; congruence. Qed.

(** ** Retries and their exhaustion *)



(** The same notification once the counter has reached [StartRetries]: the
    event is Exited, the counter goes back to zero, and a start, restart or
    stop in flight is answered with the exit cause. *)
Lemma backoff_exhausted (l : Loop) (c : Command) (err : error) :
  state (svc l) <> Stopping ->
  StartRetries (svc l) <= retries l ->
  lcommand l = Some c ->
  (Name c =s Start) || (Name c =s Restart) || (Name c =s Stop) = true ->
  handle (IState (mkProcessState Backoff err)) l
  = Some (tt, mkLoop (set_state Exited (svc l)) None 0,
          EEvent Exited err :: reply c err).
Proof.
  destruct l as [[d e st sr sg sto re so se ar cm stt] c0 r].
  cbn [svc retries lcommand state StartRetries]. intros Hst Hr Hc Hn.
  apply Z.ltb_ge in Hr. subst c0. destruct c as [n k]. cbn [Name] in Hn.
  unfold reply. cbn [Name Response].
  destruct stt; try congruence; loop_eval; rewrite ?Hr; loop_eval;
    try (destruct k; reflexivity);
    repeat match goal with H : (_ =s _) = false |- _ => rewrite H in Hn end;
    discriminate.
Qed.

(** A Running notification with no shutdown in flight leaves the counter
    as it is. *)
Lemma running_keeps_retries (l l1 : Loop) (o : list Effect) :
  shouldShutdown l = false ->
  handle (IState (mkProcessState Running None)) l = Some (tt, l1, o) ->
  state (svc l1) = Running /\ retries l1 = retries l.
Proof.
  destruct l as [[d e st sr sg sto re so se ar cm stt] c r].
  intros Hs H. revert H. unfold handle, on_state. cbn [ps_State].
  unfold bind at 1, get. rewrite Hs.
  destruct c as [[n k]|]; loop_eval; try destruct k;
    intros H; inversion H; subst; cbn; auto.
Qed.

(** C1.  The default service, a [start] and four premature exits: the
    fourth finds the counter at [StartRetries] and the loop emits Exited
    (the package has no Fatal state), answers the [start] with the exit
    cause and resets the counter; the service is then in Exited, where a
    later [start] is accepted and begins a new attempt. *)
Theorem backoff_exhaustion_emits_Exited :
  exists l o,
    Run sleeper [ask Start 1%nat; premature; premature; premature; premature]
    = Some (Selecting, l, o) /\
    map fst (events o)
    = [Starting; Backoff; Starting; Backoff; Starting; Backoff; Starting;
       Exited] /\
    responses o
    = [(1%nat, "start",
        Some "process exited prematurely with failure: exit status 1")] /\
    state (svc l) = Exited /\ retries l = 0 /\ lcommand l = None /\
    exists l1,
      handle (ask Start 2%nat) l
      = Some (tt, l1, [EEvent Starting None; ESpawn]) /\
      state (svc l1) = Starting.
Proof.
  eexists. eexists. split; [vm_compute; reflexivity|].
  repeat split. eexists. split; [vm_compute; reflexivity|reflexivity].
Qed.

(** C3.  The default service, a [start], one premature exit and then a
    Running notification: the service is Running and the counter still
    holds the retry, 1 and not 0.  Only exhaustion resets it. *)
Theorem running_does_not_reset_retries :
  exists l o,
    Run sleeper [ask Start 1%nat; premature; is_running]
    = Some (Selecting, l, o) /\
    map fst (events o) = [Starting; Backoff; Starting; Running] /\
    responses o = [(1%nat, "start", None)] /\
    state (svc l) = Running /\
    retries l = 1.
Proof.
  eexists. eexists. split; [vm_compute; reflexivity|]. repeat split.
Qed.
(** ** Shutdown while Starting *)

(** With a shutdown in flight and the service Starting, the Running
    notification goes to [stop], whose guard wants the state Running: the
    shutdown is answered with an invalid-transition error and dropped, and
    the service is left Starting with no event, signal or timer. *)
Lemma deferred_shutdown_is_rejected (l : Loop) (c : Command) :
  state (svc l) = Starting ->
  lcommand l = Some c ->
  Name c = Shutdown ->
  handle (IState (mkProcessState Running None)) l
  = Some (tt, mkLoop (svc l) None (retries l),
          reply c (Some "invalid state transition: starting -> stopping")).
Proof.
  destruct l as [[d e st sr sg sto re so se ar cm stt] c0 r].
  cbn [svc retries lcommand state]. intros -> -> Hn.
  destruct c as [n k]. cbn [Name] in Hn. subst n. unfold reply.
  destruct k; reflexivity.
Qed.

(** C5.  A [start], the child launched with pid 42, a [shutdown] while the
    service is Starting, then the start window elapsing with the child
    alive: the [shutdown] is answered with an error, no Stopping event is
    emitted and no signal sent, the service stays Starting with the child
    running, and the loop cannot return. *)
Theorem shutdown_while_starting_fails :
  exists y o,
    System.sys_run (System.init_sys sleeper) shutdown_while_starting
    = Some (y, o) /\
    map fst (events o) = [Starting] /\
    responses o
    = [(1%nat, "start", Some "service is shuttind down");
       (2%nat, "shutdown",
        Some "invalid state transition: starting -> stopping")] /\
    (forall pid sig, ~ In (ESignal pid sig) o) /\
    state (svc (System.loop y)) = Starting /\
    lcommand (System.loop y) = None /\
    System.sys_step y System.SReturn = System.SBlocked.
Proof.
  eexists. eexists. split; [vm_compute; reflexivity|].
  repeat split.
  intros pid sig H. cbn in H.
  repeat (destruct H as [H|H]; [discriminate|]). exact H.
Qed.

(** ** The kill guard *)

(** [stop] on a Running service signals the child and arms the timer with
    the pid of the handle, which is what [Pid] returns from then on. *)
Lemma stop_records_pid (l l1 : Loop) (o : list Effect) (pid : Z) :
  stop l = Some (tt, l1, o) ->
  In (EArmKill pid) o ->
  state (svc l) = Running /\ state (svc l1) = Stopping /\
  Pid (svc l1) = Some pid /\
  In (ESignal pid (StopSignal (svc l))) o.
Proof.
  destruct l as [[d e st sr sg sto re so se ar cm stt] c r].
  destruct stt, c as [[n k]|], cm as [[pa ag co ce en di [p|]]|];
    loop_eval; try destruct k; intros H; inversion H; subst; clear H;
    cbn; intros Hin;
    repeat (destruct Hin as [Hin|Hin]; [try discriminate|]);
    try contradiction; inversion Hin; subst; cbn; auto 10.
Qed.

(** C6.  On a kill notification carrying [pid], every forced kill that is
    issued has [pid] equal to what [Pid] returns at that moment; for a real
    (nonzero) pid this means the service is Running or Stopping and [pid]
    is the pid of the current child, which is the process killed.  A
    notification whose pid differs from the current one does nothing. *)
Theorem kill_guard (l l1 : Loop) (o : list Effect) (pid : Z) :
  handle (IKill pid) l = Some (tt, l1, o) ->
  l1 = l /\
  (forall q, In (EKill q) o ->
     Pid (svc l) = Some pid /\
     (pid <> 0 ->
      q = pid /\
      (state (svc l) = Running \/ state (svc l) = Stopping) /\
      exists c, command (svc l) = Some c /\ Process c = Some pid)) /\
  (Pid (svc l) <> Some pid -> o = []).
Proof.
  destruct l as [[d e st sr sg sto re so se ar cm stt] c r].
  unfold handle, on_kill, Pid.
  cbv beta iota zeta delta [bind get ret emit lift_option panic svc state
                            command negb andb app].
  destruct (State_eqb stt Running) eqn:ER, (State_eqb stt Stopping) eqn:ES;
    cbv beta iota zeta delta [negb andb];
    try (apply State_eqb_eq in ER); try (apply State_eqb_eq in ES);
    (destruct cm as [[pa ag co ce en di [p|]]|]; cbn [Process]; try discriminate);
    (destruct (pid =? _) eqn:E;
     [apply Z.eqb_eq in E|apply Z.eqb_neq in E]); cbn;
    intros H; inversion H; subst; clear H;
    (split; [reflexivity|split; [|try congruence; auto]]);
    intros q Hq; cbn in Hq; try contradiction;
    destruct Hq as [Hq|[]]; inversion Hq; subst;
    (split; [reflexivity|intros Hp; try congruence]);
    (split; [reflexivity|split; [auto|eexists; split; reflexivity]]).
Qed.

(** A Stopping service whose child has pid 42, a matching notification. *)
Lemma kill_guard_witness :
  sleeper_loop Stopping 42 None = sleeper_loop Stopping 42 None /\
  (forall q, In (EKill q) [EKill 42] ->
     Pid (svc (sleeper_loop Stopping 42 None)) = Some 42 /\
     (42 <> 0 ->
      q = 42 /\
      (state (svc (sleeper_loop Stopping 42 None)) = Running \/
       state (svc (sleeper_loop Stopping 42 None)) = Stopping) /\
      exists c, command (svc (sleeper_loop Stopping 42 None)) = Some c /\
                Process c = Some 42)) /\
  (Pid (svc (sleeper_loop Stopping 42 None)) <> Some 42 -> [EKill 42] = []).
Proof.
  apply (kill_guard (sleeper_loop Stopping 42 None)
           (sleeper_loop Stopping 42 None) [EKill 42] 42).
  reflexivity.
Defined.

(** A late notification: the timer recorded 42, the service has meanwhile
    restarted and its child is 43. *)
Example late_kill_is_ignored :
  handle (IKill 42) (sleeper_loop Running 43 None)
  = Some (tt, sleeper_loop Running 43 None, []).
Proof. reflexivity. Qed.
(** ** Rejected commands *)

(** The guards of [start], [stop] and the restart case reject exactly the
    cells the table marks invalid. *)
Lemma spec_invalid_cases (st : State) (name : string) :
  spec_invalid st name = true ->
  name = Start \/ name = Stop \/ name = Restart.
Proof.
  unfold spec_invalid.
  destruct st; rewrite ?orb_true_iff, ?String.eqb_eq; tauto.
Qed.

(** C7.  With no other command in flight, a command the table marks
    invalid for the current state is answered with the error
    [invalid state transition: <from> -> <to>], where [<from>] is the name
    of the current state and [<to>] the name of the state the command was
    heading for; the loop state is what it was and nothing else is
    emitted. *)
Theorem invalid_command_is_rejected (l : Loop) (c : Command) :
  lcommand l = None ->
  spec_invalid (state (svc l)) (Name c) = true ->
  handle (ICommand c) l
  = Some (tt, l,
          reply c (Some ("invalid state transition: "
                         ++ State_name (state (svc l)) ++ " -> "
                         ++ State_name (attempted (Name c)))%string)).
Proof.
  destruct l as [[d e st sr sg sto re so se ar cm stt] c0 r].
  cbn [svc lcommand state]. intros -> Hinv.
  destruct c as [n k]. cbn [Name] in *.
  destruct (spec_invalid_cases _ _ Hinv) as [->|[->| ->]];
    destruct stt; try discriminate Hinv; unfold reply; cbn [Response Name];
    destruct k; reflexivity.
Qed.

(** [stop] while Stopped. *)
Lemma invalid_command_is_rejected_witness :
  handle (ask Stop 1%nat) (mkLoop sleeper None 0)
  = Some (tt, mkLoop sleeper None 0,
          [EResponse 1%nat "stop"
             (Some "invalid state transition: stopped -> stopping")]).
Proof.
  apply (invalid_command_is_rejected (mkLoop sleeper None 0)
           (mkCommand Stop (Some 1%nat))); reflexivity.
Defined.

(** [start] while Running. *)
Example start_while_running :
  handle (ask Start 1%nat) (mkLoop (set_state Running sleeper) None 0)
  = Some (tt, mkLoop (set_state Running sleeper) None 0,
          [EResponse 1%nat "start"
             (Some "invalid state transition: running -> starting")]).
Proof. reflexivity. Qed.

(** ** At most one command in flight *)

(** C4.  With a [start] in flight, a [stop] is turned away at once and
    the loop state stays what it was, and a [shutdown] fails the [start] and
    takes its place; but the two errors do not read as intended.  The
    [stop] is answered with the unformatted text
    [command %s is currently executing], and the [start] is failed with the
    misspelt [service is shuttind down]. *)
Theorem latch_error_texts :
  handle (ask Stop 2%nat)
    (sleeper_loop Starting 42 (Some (mkCommand Start (Some 1%nat))))
  = Some (tt, sleeper_loop Starting 42 (Some (mkCommand Start (Some 1%nat))),
          [EResponse 2%nat "stop" (Some "command %s is currently executing")])
  /\
  handle (ask Shutdown 2%nat)
    (sleeper_loop Starting 42 (Some (mkCommand Start (Some 1%nat))))
  = Some (tt,
          sleeper_loop Starting 42 (Some (mkCommand Shutdown (Some 2%nat))),
          [EResponse 1%nat "start" (Some "service is shuttind down")])
  /\
  "command %s is currently executing" <> "command is currently executing" /\
  "service is shuttind down" <> "service is shutting down".
Proof.
  repeat split; discriminate.
Qed.

(** The latch in general.  While the loop holds a command in flight, a
    command that is not a shutdown is answered at once with an error and
    the loop state stays what it was.  A shutdown instead fails the command
    in flight with an error and takes its place; it then begins a stop
    sequence if the service is Running, and is otherwise deferred. *)
Lemma one_command_in_flight (l : Loop) (cur c : Command) :
  lcommand l = Some cur ->
  (Name c <> Shutdown ->
   exists msg, handle (ICommand c) l = Some (tt, l, reply c (Some msg)))
  /\
  (Name c = Shutdown ->
   exists msg,
     (state (svc l) <> Running ->
      exists l1,
        handle (ICommand c) l = Some (tt, l1, reply cur (Some msg)) /\
        lcommand l1 = Some c /\ retries l1 = retries l /\
        (state (svc l) <> Backoff -> svc l1 = svc l)) /\
     (forall h pid,
        state (svc l) = Running ->
        command (svc l) = Some h -> Process h = Some pid ->
        handle (ICommand c) l
        = Some (tt, mkLoop (set_state Stopping (svc l)) (Some c) (retries l),
                reply cur (Some msg)
                ++ [EEvent Stopping None; ESignal pid (StopSignal (svc l));
                    EArmKill pid]))).
Proof.
  destruct l as [[d e st sr sg sto re so se ar cm stt] c0 r].
  cbn [svc lcommand state retries command StopSignal]. intros ->.
  destruct c as [n k], cur as [n0 k0]. cbn [Name]. unfold reply.
  cbn [Name Response]. split.
  - intros Hn. apply String.eqb_neq in Hn.
    exists "command %s is currently executing".
    unfold handle, on_command. loop_unfold. rewrite Hn. destruct k; reflexivity.
  - intros ->. exists "service is shuttind down". split.
    + intros Hst. destruct stt; try congruence; destruct k0;
        (eexists; split; [reflexivity|cbn; repeat split; congruence]).
    + intros h pid -> -> Hp. destruct h as [pa ag co ce en di p].
      cbn in Hp. subst p. destruct k0; reflexivity.
Qed.
(** ** Commands without a reply sink *)

Create HintDb muted.

Section Muting.

Variable dead : chan -> bool.

Lemma muted_ret {A : Type} (a : A) : muted dead (ret a) (ret a).
Proof. intros l. reflexivity. Qed.

Lemma muted_bind {A B : Type} (m1 m2 : M A) (k1 k2 : A -> M B) :
  muted dead m1 m2 ->
  (forall a, muted dead (k1 a) (k2 a)) ->
  muted dead (bind m1 k1) (bind m2 k2).
Proof.
  intros Hm Hk l. unfold bind. rewrite Hm.
  destruct (m2 l) as [[[a l1] o1]|]; cbn; [|reflexivity].
  rewrite Hk. destruct (k2 a l1) as [[[b l2] o2]|]; cbn; [|reflexivity].
  unfold mute_trace. rewrite filter_app. reflexivity.
Qed.

(** After [get], both sides may look at their own loop. *)
Lemma muted_get {A : Type} (k1 k2 : Loop -> M A) :
  (forall l, k1 (mute_loop dead l) (mute_loop dead l)
             = mute_result dead (k2 l l)) ->
  muted dead (bind get k1) (bind get k2).
Proof.
  intros H l. unfold bind, get. rewrite H.
  destruct (k2 l l) as [[[a l1] o1]|]; reflexivity.
Qed.

Lemma muted_emit (e : Effect) :
  (forall k n err, e <> EResponse k n err) ->
  muted dead (emit e) (emit e).
Proof.
  intros He l. unfold emit. cbn.
  destruct e; try reflexivity. exfalso. eapply He. reflexivity.
Qed.

Lemma muted_respond (c : Command) (err : error) :
  muted dead (respond (mute_command dead c) err) (respond c err).
Proof.
  intros l. destruct c as [n [k|]]; cbn; [|reflexivity].
  unfold respond; cbn. destruct (dead k); reflexivity.
Qed.

Lemma muted_lift_option {A : Type} (o : option A) :
  muted dead (lift_option o) (lift_option o).
Proof. intros l. destruct o; reflexivity. Qed.

Lemma muted_put_state (st : State) : muted dead (put_state st) (put_state st).
Proof. intros l. reflexivity. Qed.

Lemma muted_put_retries (r : Z) : muted dead (put_retries r) (put_retries r).
Proof. intros l. reflexivity. Qed.

Lemma muted_put_command (c : option Command) :
  muted dead (put_command (option_map (mute_command dead) c)) (put_command c).
Proof. intros l. reflexivity. Qed.

Lemma muted_invalidStateError (st : State) :
  muted dead (invalidStateError st) (invalidStateError st).
Proof. intros l. reflexivity. Qed.

Lemma muted_sendResponse (err : error) :
  muted dead (sendResponse err) (sendResponse err).
Proof.
  intros [s [[n [k|]]|] r];
    cbv [sendResponse bind get respond put_command put emit ret mute_loop
         mute_command mute_sink option_map lcommand svc retries Name Response
         mute_result mute_trace filter app negb];
    try destruct (dead k); reflexivity.
Qed.

Hint Resolve muted_ret muted_respond muted_lift_option muted_put_state
  muted_put_retries muted_invalidStateError muted_sendResponse : muted.

(** Goes through a sequence of binds. *)
Ltac muted_auto :=
  repeat match goal with
         | |- muted _ (bind get _) (bind get _) => fail 1
         | |- muted _ (bind _ _) (bind _ _) => apply muted_bind; [|intros ?]
         | |- muted _ (emit _) (emit _) =>
             apply muted_emit; intros; discriminate
         | |- muted _ _ _ => solve [auto with muted]
         end.

(** Turns an equation at one loop back into [muted]. *)
Ltac as_muted :=
  match goal with
  | |- ?m (mute_loop dead ?l) = mute_result dead (?m' ?l) =>
      let H := fresh in
      cut (muted dead m m'); [intros H; exact (H l)|]
  end.

Lemma muted_sendEvent (st : State) (err : error) :
  muted dead (sendEvent st err) (sendEvent st err).
Proof.
  unfold sendEvent.
  apply muted_bind; [auto with muted|intros _].
  apply muted_bind; [apply muted_emit; intros; discriminate|intros _].
  apply muted_get. intros [s [c|] r]; cbn [mute_loop lcommand option_map];
    [|reflexivity].
  cbn [mute_command Name].
  destruct ((Name c =s Restart) || (Name c =s Start)), (Name c =s Stop),
    (State_eqb st Running), (State_eqb st Exited), (State_eqb st Stopped);
    first [apply (muted_sendResponse _ (mkLoop s (Some c) r)) | reflexivity].
Qed.

Hint Resolve muted_sendEvent : muted.

Lemma muted_start : muted dead start start.
Proof.
  unfold start. apply muted_get. intros l.
  replace (svc (mute_loop dead l)) with (svc l) by (destruct l; reflexivity).
  match goal with |- (if ?b then _ else _) _ = _ => destruct b end;
    as_muted; muted_auto.
Qed.

Lemma muted_stop : muted dead stop stop.
Proof.
  unfold stop. apply muted_get. intros l.
  replace (svc (mute_loop dead l)) with (svc l) by (destruct l; reflexivity).
  match goal with |- (if ?b then _ else _) _ = _ => destruct b end;
    as_muted; muted_auto.
  apply muted_get. intros l1.
  replace (svc (mute_loop dead l1)) with (svc l1) by (destruct l1; reflexivity).
  as_muted; muted_auto.
Qed.

Hint Resolve muted_start muted_stop : muted.

Lemma muted_on_state (ps : ProcessState) :
  muted dead (on_state ps) (on_state ps).
Proof.
  unfold on_state. destruct (ps_State ps); try apply muted_ret;
    apply muted_get; intros l;
    replace (svc (mute_loop dead l)) with (svc l) by (destruct l; reflexivity);
    replace (retries (mute_loop dead l)) with (retries l)
      by (destruct l; reflexivity);
    replace (shouldShutdown (mute_loop dead l)) with (shouldShutdown l)
      by (destruct l as [? [[? ?]|] ?]; reflexivity);
    repeat match goal with
           | |- (if ?b then _ else _) _ = _ => destruct b
           end;
    as_muted; muted_auto;
    apply muted_get; intros l1;
    replace (svc (mute_loop dead l1)) with (svc l1)
      by (destruct l1; reflexivity);
    replace (retries (mute_loop dead l1)) with (retries l1)
      by (destruct l1; reflexivity);
    repeat match goal with
           | |- (if ?b then _ else _) _ = _ => destruct b
           end;
    as_muted; muted_auto.
Qed.

Lemma muted_dispatch : muted dead dispatch dispatch.
Proof.
  unfold dispatch. apply muted_get. intros l.
  replace (svc (mute_loop dead l)) with (svc l) by (destruct l; reflexivity).
  destruct l as [s [c|] r]; cbn [mute_loop lcommand option_map svc];
    [|reflexivity].
  cbn [mute_command Name].
  change (mkLoop s (Some (mkCommand (Name c)
                            (mute_sink dead (Response c)))) r)
    with (mute_loop dead (mkLoop s (Some c) r)).
  generalize (mkLoop s (Some c) r). intros l.
  repeat match goal with
         | |- (if ?b then _ else _) _ = _ => destruct b
         end;
    try destruct (state s); as_muted; muted_auto.
Qed.

Hint Resolve muted_dispatch : muted.

Lemma muted_on_command (c : Command) :
  muted dead (on_command (mute_command dead c)) (on_command c).
Proof.
  unfold on_command. apply muted_get. intros l.
  destruct l as [s [cur|] r]; cbn [mute_loop lcommand option_map svc].
  - cbn [mute_command Name].
    change (mkLoop s (Some (mkCommand (Name cur)
                              (mute_sink dead (Response cur)))) r)
      with (mute_loop dead (mkLoop s (Some cur) r)).
    change (mkCommand (Name cur) (mute_sink dead (Response cur)))
      with (mute_command dead cur).
    change (mkCommand (Name c) (mute_sink dead (Response c)))
      with (mute_command dead c).
    generalize (mkLoop s (Some cur) r). intros l.
    destruct (Name c =s Shutdown); as_muted; muted_auto.
    apply (muted_put_command (Some c)).
  - change (mkLoop s None r) with (mute_loop dead (mkLoop s None r)).
    generalize (mkLoop s None r). intros l.
    as_muted; muted_auto. apply (muted_put_command (Some c)).
Qed.

Lemma muted_on_kill (pid : Z) : muted dead (on_kill pid) (on_kill pid).
Proof.
  unfold on_kill. apply muted_get. intros l.
  replace (svc (mute_loop dead l)) with (svc l) by (destruct l; reflexivity).
  as_muted. apply muted_bind; [auto with muted|intros cur].
  destruct (pid =? cur); muted_auto.
Qed.

Lemma muted_handle (i : Input) :
  muted dead (handle (mute_input dead i)) (handle i).
Proof.
  destruct i; cbn [mute_input handle].
  - apply muted_on_state.
  - apply muted_on_command.
  - apply muted_on_kill.
Qed.

Lemma muted_finish : muted dead finish finish.
Proof.
  unfold finish. apply muted_get. intros [s [c|] r];
    cbn [mute_loop lcommand option_map]; [|reflexivity].
  apply (muted_respond c None (mkLoop s (Some c) r)).
Qed.

Lemma shouldQuit_mute (l : Loop) :
  shouldQuit (mute_loop dead l) = shouldQuit l.
Proof. destruct l as [s [[n k]|] r]; reflexivity. Qed.

Lemma muted_Run_loop (ins : list Input) (l : Loop) :
  Run_loop (map (mute_input dead) ins) (mute_loop dead l)
  = mute_result dead (Run_loop ins l).
Proof.
  revert l. induction ins as [|i rest IH]; intros l; cbn [map Run_loop];
    rewrite shouldQuit_mute; destruct (shouldQuit l);
    try (rewrite muted_finish; destruct (finish l) as [[[u l1] o]|];
         reflexivity);
    try reflexivity.
  rewrite muted_handle. destruct (handle i l) as [[[u l1] o1]|]; cbn;
    [|reflexivity].
  rewrite IH. destruct (Run_loop rest l1) as [[[st l2] o2]|]; cbn;
    [|reflexivity].
  unfold mute_trace. rewrite filter_app. reflexivity.
Qed.

End Muting.

Lemma actions_mute (dead : chan -> bool) (o : list Effect) :
  actions (mute_trace dead o) = actions o.
Proof.
  unfold actions, mute_trace.
  induction o as [|e o IH]; [reflexivity|].
  destruct e as [st err|k n err| |pid sig|pid|pid]; cbn;
    try (rewrite IH; reflexivity).
  destruct (dead k); cbn; exact IH.
Qed.

Lemma mute_trace_In (dead : chan -> bool) (o : list Effect) (k : chan)
  (n : string) (err : error) :
  In (EResponse k n err) (mute_trace dead o) <->
  In (EResponse k n err) o /\ dead k = false.
Proof.
  unfold mute_trace. rewrite filter_In. rewrite negb_true_iff. tauto.
Qed.

(** C10.  Replacing any set of reply sinks by nil, in the commands sent to
    a run of the control loop, changes neither whether the run panics nor
    the service, the retry counter, the name of the command in flight, the
    events, spawns, signals and kills; it only removes the responses that
    went to those sinks.  A command whose sink is nil gets no response. *)
Theorem nil_sink_is_transparent (dead : chan -> bool) (s : Service)
  (ins : list Input) :
  Run s (map (mute_input dead) ins) = mute_result dead (Run s ins) /\
  (forall l,
     svc (mute_loop dead l) = svc l /\
     retries (mute_loop dead l) = retries l /\
     option_map Name (lcommand (mute_loop dead l))
     = option_map Name (lcommand l)) /\
  (forall o, actions (mute_trace dead o) = actions o) /\
  (forall o k n err,
     In (EResponse k n err) (mute_trace dead o) <->
     In (EResponse k n err) o /\ dead k = false) /\
  (forall c err l, Response c = None -> respond c err l = Some (tt, l, [])).
Proof.
  split; [apply (muted_Run_loop dead ins (mkLoop s None 0))|].
  split; [intros [s0 [c|] r]; repeat split|].
  split; [apply actions_mute|].
  split; [apply mute_trace_In|].
  intros c err l Hc. unfold respond. rewrite Hc. reflexivity.
Qed.

(** A [start] without a sink and three premature exits under the default
    [StartRetries] of 3, with and without the sink. *)
Example start_without_sink :
  option_map snd
    (Run sleeper [ICommand (mkCommand Start None); premature; premature;
                  premature; premature])
  = option_map (fun r => actions (snd r))
      (Run sleeper [ask Start 1%nat; premature; premature; premature;
                    premature]).
Proof. reflexivity. Qed.
(** ** The lifecycle helper *)

Module LifecycleFacts.
Import Lifecycle.

Lemma hstep_args (s s1 : Service) (h h1 : Helper) (a : HAction)
  (p : option ProcessState) :
  hstep s h a = HOk h1 s1 p ->
  args s1 = args s /\ state s1 = state s /\
  ((forall m, a <> ALaunch m) -> s1 = s).
Proof.
  destruct a, h as [m t w c]; cbn;
    try (destruct m; try discriminate);
    try (destruct t; try discriminate);
    try (destruct (makeCommand s); try discriminate);
    try (destruct r; try discriminate);
    try (destruct (0 <? z); try discriminate);
    try (destruct w; try discriminate);
    try (destruct c; try discriminate);
    try (destruct (closed _); try discriminate);
    intros H; inversion H; subst; (split; [reflexivity|split; [reflexivity|]]);
    intros Hm'; try reflexivity; exfalso; eapply Hm'; reflexivity.
Qed.

(** Every step keeps the helper inside [hinv] and adds its post. *)
Lemma hstep_hinv (s s1 : Service) (h h1 : Helper) (a : HAction)
  (p : option ProcessState) (ps : list ProcessState) :
  hinv h ps ->
  hstep s h a = HOk h1 s1 p ->
  hinv h1 (ps ++ post_list p).
Proof.
  intros Hinv.
  inversion Hinv; subst; clear Hinv;
    repeat match goal with
           | H : alive_main _ _ |- _ => inversion H; subst; clear H
           | H : _ \/ _ |- _ => destruct H
           | H : _ /\ _ |- _ => destruct H
           end; subst;
    destruct a; cbn;
    try (destruct (makeCommand s); try discriminate);
    try (destruct r; try discriminate);
    try (destruct (0 <? z); try discriminate);
    try discriminate;
    intros H; inversion H; subst; clear H; cbn;
    try (destruct check);
    solve [ econstructor; eauto using alive_main
          | eapply hinv_alive; eauto using alive_main
          | eapply hinv_running; eauto using alive_main
          | eapply hinv_early; eauto ].
Qed.

Lemma hrun_hinv (sched : list HAction) (s s1 : Service) (h h1 : Helper)
  (ps0 ps : list ProcessState) :
  hinv h ps0 ->
  hrun s h sched = Some (s1, h1, ps) ->
  hinv h1 (ps0 ++ ps) /\ args s1 = args s.
Proof.
  revert s h ps0 ps. induction sched as [|a rest IH]; intros s h ps0 ps Hinv.
  - cbn. intros H. inversion H; subst. rewrite app_nil_r. auto.
  - cbn. destruct (hstep s h a) as [h2 s2 p| |] eqn:E; try discriminate.
    destruct (hrun s2 h2 rest) as [[[s3 h3] ps3]|] eqn:E2; try discriminate.
    intros H. inversion H; subst.
    destruct (IH _ _ _ _ (hstep_hinv _ _ _ _ _ _ _ Hinv E) E2) as [H1 H2].
    rewrite <- app_assoc in H1. split; [exact H1|].
    rewrite H2. apply (hstep_args _ _ _ _ _ _ E).
Qed.

(** What has been posted so far begins one of the three sequences. *)
Lemma hinv_prefix (h : Helper) (ps : list ProcessState) :
  hinv h ps -> exists more, attempt_posts (ps ++ more).
Proof.
  intros H. inversion H; subst;
    first
      [ solve [exists []; cbn; constructor]
      | solve [exists [mkProcessState Exited (Some "")]; cbn; constructor]
      | solve [exists [mkProcessState Exited (Some (normal_msg None))];
               apply (posts_running_exited None)] ].
Qed.

(** The helper has returned exactly when a whole sequence is out. *)
Lemma hinv_done (h : Helper) (ps : list ProcessState) :
  hinv h ps -> (main h = MDone <-> attempt_posts ps).
Proof.
  intros H. inversion H; subst; cbn; split; intros Hd;
    try discriminate; try constructor; try reflexivity;
    repeat match goal with
           | H : alive_main _ _ |- _ => inversion H; subst; clear H
           end;
    try discriminate; inversion Hd.
Qed.

(** Once it has returned, no step of either goroutine is left. *)
Lemma hinv_done_blocked (s : Service) (h : Helper) (ps : list ProcessState)
  (a : HAction) :
  hinv h ps -> main h = MDone -> hstep s h a = HBlocked.
Proof.
  intros H. inversion H; subst; cbn; intros Hm; try discriminate;
    repeat match goal with
           | H : alive_main _ _ |- _ => inversion H; subst; clear H
           end; try discriminate;
    destruct a; reflexivity.
Qed.

(** Until then some step is enabled: the helper does not get stuck as long
    as the child eventually exits and the loop keeps receiving. *)
Lemma hinv_progress (s : Service) (h : Helper) (ps : list ProcessState) :
  args s <> [] ->
  hinv h ps -> main h <> MDone ->
  exists a h1 s1 p, hstep s h a = HOk h1 s1 p.
Proof.
  intros Hargs H.
  assert (Hmk : exists c, makeCommand s = Some c).
  { unfold makeCommand. destruct (args s); [congruence|eauto]. }
  destruct Hmk as [c Hmk].
  inversion H; subst; cbn; intros Hm; try congruence;
    repeat match goal with
           | H : alive_main _ _ |- _ => inversion H; subst; clear H
           | H : _ \/ _ |- _ => destruct H
           | H : _ /\ _ |- _ => destruct H
           end; subst.
  all: first
         [ exists (ALaunch (inr "")); cbn; rewrite Hmk; do 3 eexists; reflexivity
         | exists APostMain; do 3 eexists; reflexivity
         | exists (AExit None); do 3 eexists; reflexivity
         | exists AMain; do 3 eexists; reflexivity
         | exists ATimer; do 3 eexists; reflexivity
         | exists APostTimer; do 3 eexists; reflexivity ].
Qed.

(** No reachable configuration panics. *)
Lemma hinv_no_panic (s : Service) (h : Helper) (ps : list ProcessState)
  (a : HAction) :
  args s <> [] -> hinv h ps -> hstep s h a <> HPanic.
Proof.
  intros Hargs H.
  assert (Hmk : exists c, makeCommand s = Some c).
  { unfold makeCommand. destruct (args s); [congruence|eauto]. }
  destruct Hmk as [c Hmk].
  inversion H; subst;
    repeat match goal with
           | H : alive_main _ _ |- _ => inversion H; subst; clear H
           | H : _ \/ _ |- _ => destruct H
           | H : _ /\ _ |- _ => destruct H
           end; subst;
    destruct a; cbn; rewrite ?Hmk; try discriminate;
    try (destruct r; try discriminate; destruct (0 <? z); discriminate).
Qed.

(** Every step uses up rank, so a schedule has at most [rank hinit]
    steps. *)
Lemma hstep_rank (s s1 : Service) (h h1 : Helper) (a : HAction)
  (p : option ProcessState) :
  hstep s h a = HOk h1 s1 p -> (rank h1 < rank h)%nat.
Proof.
  destruct a, h as [m t w c]; cbn;
    try (destruct m; try discriminate);
    try (destruct t; try discriminate);
    try (destruct (makeCommand s); try discriminate);
    try (destruct r; try discriminate);
    try (destruct (0 <? z); try discriminate);
    try (destruct w; try discriminate);
    try (destruct c; try discriminate);
    try (destruct (closed _); try discriminate);
    intros H; inversion H; subst; cbn; lia.
Qed.

Lemma hrun_length (sched : list HAction) (s s1 : Service) (h h1 : Helper)
  (ps : list ProcessState) :
  hrun s h sched = Some (s1, h1, ps) ->
  (length sched + rank h1 <= rank h)%nat.
Proof.
  revert s h ps. induction sched as [|a rest IH]; intros s h ps.
  - cbn. intros H. inversion H; subst. lia.
  - cbn. destruct (hstep s h a) as [h2 s2 p| |] eqn:E; try discriminate.
    destruct (hrun s2 h2 rest) as [[[s3 h3] ps3]|] eqn:E2; try discriminate.
    intros H. inversion H; subst.
    apply IH in E2. apply hstep_rank in E. lia.
Qed.

(** The timer goroutine never goes back to not being spawned. *)
Lemma hstep_timer (s s1 : Service) (h h1 : Helper) (a : HAction)
  (p : option ProcessState) :
  hstep s h a = HOk h1 s1 p -> timer h <> TNone -> timer h1 <> TNone.
Proof.
  destruct a, h as [m t w c]; cbn;
    try (destruct m; try discriminate);
    try (destruct t; try discriminate);
    try (destruct (makeCommand s); try discriminate);
    try (destruct r; try discriminate);
    try (destruct (0 <? z); try discriminate);
    try (destruct w; try discriminate);
    try (destruct c; try discriminate);
    try (destruct (closed _); try discriminate);
    intros H; inversion H; subst; cbn; congruence.
Qed.

Lemma hrun_timer (sched : list HAction) (s s1 : Service) (h h1 : Helper)
  (ps : list ProcessState) :
  hrun s h sched = Some (s1, h1, ps) -> timer h <> TNone -> timer h1 <> TNone.
Proof.
  revert s h ps. induction sched as [|a rest IH]; intros s h ps.
  - cbn. intros H. inversion H; subst. auto.
  - cbn. destruct (hstep s h a) as [h2 s2 p| |] eqn:E; try discriminate.
    destruct (hrun s2 h2 rest) as [[[s3 h3] ps3]|] eqn:E2; try discriminate.
    intros H Ht. inversion H; subst.
    eapply IH; [exact E2|]. eapply hstep_timer; eauto.
Qed.

(** After a failed launch the only step left is the post of the error. *)
Lemma failed_run (sched : list HAction) (s s1 : Service) (h1 : Helper)
  (ps : list ProcessState) (err : string) :
  hrun s (mkHelper (MPost (mkProcessState Exited (Some err))) TNone None None)
    sched = Some (s1, h1, ps) ->
  main h1 = MDone -> ps = [mkProcessState Exited (Some err)].
Proof.
  destruct sched as [|a rest]; cbn.
  - intros H. inversion H; subst. discriminate.
  - destruct a; cbn; try discriminate.
    destruct rest as [|a rest]; cbn.
    + intros H. inversion H; subst. reflexivity.
    + destruct a; discriminate.
Qed.

(** Once the child is launched, a helper that has returned has posted
    Running and Exited, or Backoff alone: never a lone Exited. *)
Lemma launched_run (sched : list HAction) (s s1 : Service) (h1 : Helper)
  (ps : list ProcessState) :
  hrun s (mkHelper MWait TSleep None None) sched = Some (s1, h1, ps) ->
  main h1 = MDone ->
  (exists e, ps = [mkProcessState Running None;
                   mkProcessState Exited (Some (normal_msg e))]) \/
  (exists e, ps = [mkProcessState Backoff (Some (premature_msg e))]).
Proof.
  intros Hrun Hm.
  assert (Hinv0 : hinv (mkHelper MWait TSleep None None) [])
    by (apply hinv_alive; [constructor|auto]).
  destruct (hrun_hinv _ _ _ _ _ _ _ Hinv0 Hrun) as [Hinv _].
  assert (Ht : timer h1 <> TNone)
    by (eapply hrun_timer; [exact Hrun|discriminate]).
  cbn in Hinv. revert Hm Ht.
  inversion Hinv; subst; cbn; intros Hm Ht; try discriminate; try congruence;
    repeat match goal with
           | H : alive_main _ _ |- _ => inversion H; subst; clear H
           end; try discriminate; eauto.
Qed.

(** The timer's [select] decides between the two sequences of a launched
    child: if main has not yet sent on [waitOver] the default case is
    taken and Running is posted; otherwise Backoff will be. *)
Lemma start_window_decides (s : Service) (m : MainPc) (w c : option bool) :
  m <> MDone ->
  hstep s (mkHelper m TSleep w c) ATimer
  = HOk (mkHelper m (match w with
                     | None => TPostRunning
                     | Some _ => TSendCheck false
                     end) None c) s None.
Proof. intros Hm. destruct m, w; cbn; congruence. Qed.

(** C2.  Whatever the schedule of one start attempt, what the helper has
    posted begins one of the three sequences (Running then Exited; Backoff;
    Exited with the launch error) and nothing else; the helper has returned
    exactly when a whole sequence is out, and then neither goroutine has a
    step left; before that it is never stuck and no step panics; a
    schedule has at most eight steps; and a helper that has returned has
    posted the launch error alone if the launch failed, and otherwise
    either Running and Exited or Backoff alone. *)
Theorem helper_posts (s s1 : Service) (sched : list HAction) (h1 : Helper)
  (ps : list ProcessState) :
  args s <> [] ->
  hrun s hinit sched = Some (s1, h1, ps) ->
  (exists more, attempt_posts (ps ++ more)) /\
  (main h1 = MDone <-> attempt_posts ps) /\
  (main h1 = MDone -> forall a, hstep s1 h1 a = HBlocked) /\
  (main h1 <> MDone -> exists a h2 s2 p, hstep s1 h1 a = HOk h2 s2 p) /\
  (forall a, hstep s1 h1 a <> HPanic) /\
  (length sched <= 8)%nat /\
  (main h1 = MDone ->
   match sched with
   | ALaunch (inr err) :: _ => ps = [mkProcessState Exited (Some err)]
   | _ =>
       (exists e, ps = [mkProcessState Running None;
                        mkProcessState Exited (Some (normal_msg e))]) \/
       (exists e, ps = [mkProcessState Backoff (Some (premature_msg e))])
   end).
Proof.
  intros Hargs Hrun.
  destruct (hrun_hinv _ _ _ _ _ [] _ hinv_init Hrun) as [Hinv Ha].
  cbn in Hinv. pose proof Hargs as Hargs1. rewrite <- Ha in Hargs1.
  split; [eapply hinv_prefix; eauto|].
  split; [eapply hinv_done; eauto|].
  split; [intros Hm a; eapply hinv_done_blocked; eauto|].
  split; [intros Hm; eapply hinv_progress; eauto|].
  split; [intros a; eapply hinv_no_panic; eauto|].
  split; [apply hrun_length in Hrun; cbn in Hrun; lia|].
  intros Hm. destruct sched as [|a rest].
  - cbn in Hrun. inversion Hrun; subst. discriminate.
  - assert (Hmk : exists c, makeCommand s = Some c).
    { unfold makeCommand. destruct (args s); [congruence|eauto]. }
    destruct Hmk as [c Hmk].
    destruct a as [[pid|err]| | | | |]; cbn in Hrun; try discriminate;
      rewrite Hmk in Hrun.
    + destruct (0 <? pid); [|discriminate].
      destruct (hrun _ _ rest) as [[[s3 h3] ps3]|] eqn:E; [|discriminate].
      inversion Hrun; subst. cbn. eapply launched_run; eauto.
    + destruct (hrun _ _ rest) as [[[s3 h3] ps3]|] eqn:E; [|discriminate].
      inversion Hrun; subst. cbn. eapply failed_run; eauto.
Qed.

Lemma helper_posts_witness :
  attempt_posts
    [mkProcessState Running None;
     mkProcessState Exited
       (Some "process exited normally with failure: exit status 1")].
Proof.
  destruct (helper_posts sleeper
              (set_command (Some (child 42)) sleeper)
              late_exit (mkHelper MDone TDone (Some true) None)
              [mkProcessState Running None;
               mkProcessState Exited
                 (Some "process exited normally with failure: exit status 1")])
    as (_ & H & _).
  - discriminate.
  - reflexivity.
  - apply H. reflexivity.
Defined.

Example early_exit_posts :
  option_map snd (hrun sleeper hinit early_exit)
  = Some [mkProcessState Backoff
            (Some "process exited prematurely with success")].
Proof. reflexivity. Qed.

Example failed_launch_posts :
  option_map snd (hrun sleeper hinit failed_launch)
  = Some [mkProcessState Exited (Some "exec: not found")].
Proof. reflexivity. Qed.

End LifecycleFacts.
(** ** The loop and its helpers together *)

(** Like [loop_eval], and also splits on a sink, a state or a process
    handle that a [match] is stuck on. *)
Ltac loop_crunch :=
  loop_unfold;
  repeat match goal with
         | |- context [if ?n =s ?m then _ else _] =>
             destruct (n =s m) eqn:?; loop_unfold
         | |- context [if ?a <? ?b then _ else _] =>
             destruct (a <? b) eqn:?; loop_unfold
         | |- context [if ?a =? ?b then _ else _] =>
             destruct (a =? b) eqn:?; loop_unfold
         | |- context [match ?x with Some _ => _ | None => _ end] =>
             is_var x; destruct x; loop_unfold
         | |- context [match ?x with Starting => _ | _ => _ end] =>
             is_var x; destruct x; loop_unfold
         | |- context [if ?x then _ else _] =>
             is_var x; destruct x; loop_unfold
         end.

Module SystemFacts.
Import Lifecycle LifecycleFacts System.

Lemma only_state_command (s s1 : Service) :
  only_state s s1 -> command s1 = command s /\ args s1 = args s.
Proof. intros ->. split; reflexivity. Qed.

Lemma live_handle_only_state (s s1 : Service) :
  only_state s s1 -> live_handle s -> live_handle s1.
Proof.
  intros H (c & pid & Hc & Hp & Hpos). exists c, pid.
  destruct (only_state_command _ _ H) as [-> _]. auto.
Qed.

(** *** What one iteration can do to the state and the goroutines *)

Lemma command_shape (l l1 : Loop) (c : Command) (o : list Effect) :
  handle (ICommand c) l = Some (tt, l1, o) ->
  only_state (svc l) (svc l1) /\
  ((state (svc l1) = state (svc l) /\ spawned o = [] /\ armed o = []) \/
   (idle (state (svc l)) /\ state (svc l1) = Starting /\
    spawned o = [hinit] /\ armed o = []) \/
   (state (svc l) = Running /\ state (svc l1) = Stopping /\
    spawned o = [] /\
    exists pid, armed o = [pid] /\ Pid (svc l1) = Some pid) \/
   (state (svc l) = Backoff /\ state (svc l1) = Exited /\
    spawned o = [] /\ armed o = [])).
Proof.
  destruct l as [[d e st sr sg sto re so se ar cm stt] c0 r].
  destruct c as [n k]. destruct c0 as [[n0 k0]|].
  all: destruct cm as [[pa ag co ce en di p]|]; loop_crunch;
    intros H; inversion H; subst; clear H;
    (split; [reflexivity|]); unfold idle; cbn;
    first [ left; repeat split; reflexivity
          | right; left; repeat split; auto; fail
          | right; right; left; repeat split; eexists; split; reflexivity
          | right; right; right; repeat split; reflexivity ].
Qed.

Lemma running_shape (l l1 : Loop) (e : error) (o : list Effect) :
  state (svc l) = Starting ->
  handle (IState (mkProcessState Running e)) l = Some (tt, l1, o) ->
  only_state (svc l) (svc l1) /\
  (state (svc l1) = Starting \/ state (svc l1) = Running) /\
  spawned o = [] /\ armed o = [].
Proof.
  destruct l as [[d e0 st sr sg sto re so se ar cm stt] c0 r].
  cbn [svc state]. intros ->. destruct c0 as [[n0 k0]|]; loop_crunch;
    intros H; inversion H; subst; clear H; cbn;
    (split; [reflexivity|split; [auto|split; reflexivity]]).
Qed.

Lemma final_shape (l l1 : Loop) (ps : ProcessState) (o : list Effect) :
  ps_State ps = Exited \/ ps_State ps = Backoff ->
  handle (IState ps) l = Some (tt, l1, o) ->
  only_state (svc l) (svc l1) /\ armed o = [] /\
  (((state (svc l1) = Stopped \/ state (svc l1) = Exited) /\ spawned o = [])
   \/ (state (svc l1) = Starting /\ spawned o = [hinit])).
Proof.
  destruct l as [[d e0 st sr sg sto re so se ar cm stt] c0 r].
  destruct ps as [pst pe]. cbn [ps_State].
  intros [->| ->]; destruct c0 as [[n0 k0]|]; loop_crunch;
    intros H; inversion H; subst; clear H; cbn;
    (split; [reflexivity|split; [reflexivity|]]); auto.
Qed.

Lemma kill_shape (l l1 : Loop) (pid : Z) (o : list Effect) :
  handle (IKill pid) l = Some (tt, l1, o) ->
  l1 = l /\ spawned o = [] /\ armed o = [].
Proof.
  destruct l as [[d e0 st sr sg sto re so se ar cm stt] c0 r].
  destruct cm as [[pa ag co ce en di p]|]; loop_crunch;
    intros H; inversion H; subst; clear H; cbn; auto.
Qed.

Lemma finish_shape (l l1 : Loop) (o : list Effect) :
  finish l = Some (tt, l1, o) -> l1 = l.
Proof.
  destruct l as [s [[n [k|]]|] r]; cbn; intros H; inversion H; reflexivity.
Qed.

Lemma shouldQuit_idle (l : Loop) :
  shouldQuit l = true ->
  state (svc l) = Stopped \/ state (svc l) = Exited.
Proof.
  unfold shouldQuit. rewrite andb_true_iff, orb_true_iff.
  rewrite !State_eqb_eq. tauto.
Qed.

(** *** What one helper step can do *)

Lemma hstep_post_action (s s1 : Service) (h h1 : Helper) (a : HAction)
  (p : ProcessState) :
  hstep s h a = HOk h1 s1 (Some p) -> a = APostTimer \/ a = APostMain.
Proof.
  destruct a, h as [m t w c]; cbn; auto;
    try (destruct m; try discriminate);
    try (destruct t; try discriminate);
    try (destruct (makeCommand s); try discriminate);
    try (destruct r; try discriminate);
    try (destruct (0 <? z); try discriminate);
    try (destruct w; try discriminate);
    try (destruct c; try discriminate);
    try (destruct (closed _); try discriminate);
    try discriminate.
Qed.

Lemma hstep_internal (s s1 : Service) (h h1 : Helper) (a : HAction)
  (ps : list ProcessState) :
  hinv h ps -> main h <> MDone ->
  hstep s h a = HOk h1 s1 None ->
  hinv h1 ps /\ main h1 <> MDone /\ state s1 = state s /\
  ((timer h <> TNone -> live_handle s) ->
   timer h1 <> TNone -> live_handle s1) /\
  (timer h <> TNone -> s1 = s).
Proof.
  intros Hinv Hm Hstep.
  pose proof (hstep_hinv _ _ _ _ _ _ _ Hinv Hstep) as H1.
  rewrite app_nil_r in H1. split; [exact H1|].
  destruct (hstep_args _ _ _ _ _ _ Hstep) as (_ & Hst & _).
  revert Hstep. clear H1.
  inversion Hinv; subst; clear Hinv;
    repeat match goal with
           | H : alive_main _ _ |- _ => inversion H; subst; clear H
           | H : _ \/ _ |- _ => destruct H
           | H : _ /\ _ |- _ => destruct H
           end; subst; try congruence;
    destruct a; cbn;
    try (destruct (makeCommand s) as [c0|] eqn:Emk; try discriminate);
    try (destruct r; try discriminate);
    try (destruct (0 <? z) eqn:Epos; try discriminate);
    try discriminate;
    intros H; inversion H; subst; clear H; cbn;
    (split; [discriminate|]); (split; [exact Hst || reflexivity|]);
    (split; [|intros; reflexivity || congruence]);
    intros Hlive Ht; try (apply Hlive; discriminate); try congruence.
  exists (with_Process c0 (Some z)), z. repeat split. apply Z.ltb_lt. exact Epos.
Qed.

Lemma ran_internal (s s1 : Service) (h h1 : Helper) (a : HAction) :
  ran h -> hstep s h a = HOk h1 s1 None -> ran h1 /\ s1 = s.
Proof.
  intros (ps & Hinv & Hm) Hstep.
  destruct (hstep_internal _ _ _ _ _ _ Hinv Hm Hstep)
    as (H1 & H2 & _ & _ & H3).
  split; [exists ps; auto|]. apply H3.
  inversion Hinv; subst; cbn; try discriminate;
    repeat match goal with
           | H : _ \/ _ |- _ => destruct H
           | H : _ /\ _ |- _ => destruct H
           end; subst; discriminate.
Qed.

Lemma ran_no_timer_post (s s1 : Service) (h h1 : Helper) (p : ProcessState) :
  ran h -> hstep s h APostTimer = HOk h1 s1 (Some p) -> False.
Proof.
  intros (ps & Hinv & Hm).
  inversion Hinv; subst; cbn; try discriminate;
    repeat match goal with
           | H : _ \/ _ |- _ => destruct H
           | H : _ /\ _ |- _ => destruct H
           end; subst; discriminate.
Qed.

Lemma timer_post (s s1 : Service) (h h1 : Helper) (p : ProcessState)
  (ps : list ProcessState) :
  hinv h ps -> main h <> MDone ->
  hstep s h APostTimer = HOk h1 s1 (Some p) ->
  p = mkProcessState Running None /\ ran h1 /\ s1 = s /\ timer h <> TNone.
Proof.
  intros Hinv Hm Hstep.
  pose proof (hstep_hinv _ _ _ _ _ _ _ Hinv Hstep) as H1.
  revert Hstep H1. revert Hm.
  inversion Hinv; subst; clear Hinv; cbn; try discriminate;
    repeat match goal with
           | H : _ \/ _ |- _ => destruct H
           | H : _ /\ _ |- _ => destruct H
           end; subst; try discriminate;
    intros Hm Hs; inversion Hs; subst; clear Hs; cbn; intros Hnew;
    (split; [reflexivity|split; [|split; [reflexivity|discriminate]]]);
    eexists; split; [exact Hnew|exact Hm].
Qed.

Lemma main_post (s s1 : Service) (h h1 : Helper) (p : ProcessState)
  (ps : list ProcessState) :
  hinv h ps ->
  hstep s h APostMain = HOk h1 s1 (Some p) ->
  (ps_State p = Exited \/ ps_State p = Backoff) /\ main h1 = MDone /\ s1 = s.
Proof.
  intros Hinv.
  inversion Hinv; subst; clear Hinv; cbn; try discriminate;
    repeat match goal with
           | H : alive_main _ _ |- _ => inversion H; subst; clear H
           end; try discriminate;
    intros Hs; inversion Hs; subst; clear Hs; cbn; auto.
Qed.

(** *** The invariant *)

Lemma with_svc_same (l : Loop) : with_svc (svc l) l = l.
Proof. destruct l; reflexivity. Qed.

Lemma Forall_remove_nth {A : Type} (P : A -> Prop) (n : nat) (xs : list A) :
  Forall P xs -> Forall P (remove_nth n xs).
Proof.
  intros H. revert n. induction H as [|x xs Hx Hxs IH]; intros [|n]; cbn;
    auto.
Qed.

Lemma state_inv_idle (s : Service) (ret : bool) :
  idle (state s) -> state_inv s [] ret.
Proof. unfold state_inv. intros [->|[->| ->]]; reflexivity. Qed.

Lemma state_inv_idle_nil (s : Service) (hs : list Helper) (ret : bool) :
  idle (state s) -> state_inv s hs ret -> hs = [].
Proof. unfold state_inv. intros [->|[->| ->]]; auto. Qed.

Lemma state_inv_spawn (s : Service) :
  state s = Starting -> state_inv s [hinit] false.
Proof.
  unfold state_inv. intros ->. exists hinit, [].
  repeat split; try constructor; try discriminate.
  cbn. congruence.
Qed.

Lemma state_inv_same (s s1 : Service) (hs : list Helper) (ret : bool) :
  only_state s s1 -> state s1 = state s ->
  state_inv s hs ret -> state_inv s1 hs ret.
Proof.
  unfold state_inv. intros Hos ->.
  destruct (state s); auto.
  - intros (h & ps & H1 & H2 & H3 & H4 & H5). exists h, ps.
    repeat split; auto. intros Ht. eapply live_handle_only_state; eauto.
  - intros (h & H1 & H2 & H3 & H4). exists h.
    repeat split; auto. eapply live_handle_only_state; eauto.
  - intros (h & H1 & H2 & H3 & H4). exists h.
    repeat split; auto. eapply live_handle_only_state; eauto.
Qed.

Lemma state_inv_stop (s s1 : Service) (hs : list Helper) (ret : bool) :
  only_state s s1 -> state s = Running -> state s1 = Stopping ->
  state_inv s hs ret -> state_inv s1 hs ret.
Proof.
  unfold state_inv. intros Hos -> ->.
  intros (h & H1 & H2 & H3 & H4). exists h.
  repeat split; auto. eapply live_handle_only_state; eauto.
Qed.

(** A helper exists only while an attempt is under way, and it is the only
    one. *)
Lemma state_inv_helper (s : Service) (hs : list Helper) (ret : bool)
  (n : nat) (h : Helper) :
  state_inv s hs ret -> nth_error hs n = Some h ->
  n = O /\ hs = [h] /\ ret = false /\
  ((state s = Starting /\
    exists ps, hinv h ps /\ main h <> MDone /\
               (timer h <> TNone -> live_handle s)) \/
   ((state s = Running \/ state s = Stopping) /\ ran h /\ live_handle s)).
Proof.
  unfold state_inv.
  destruct (state s) eqn:E;
    try (intros ->; destruct n; discriminate).
  - intros (h0 & ps & -> & H2 & H3 & H4 & H5).
    destruct n as [|[|n]]; cbn; try discriminate.
    intros Hn; inversion Hn; subst. repeat split; auto.
    left. split; [reflexivity|]. exists ps. auto.
  - intros (h0 & -> & H2 & H3 & H4).
    destruct n as [|[|n]]; cbn; try discriminate.
    intros Hn; inversion Hn; subst. repeat split; auto.
  - intros (h0 & -> & H2 & H3 & H4).
    destruct n as [|[|n]]; cbn; try discriminate.
    intros Hn; inversion Hn; subst. repeat split; auto.
Qed.

Lemma sys_inv_init (s0 : Service) :
  state s0 = Stopped \/ state s0 = Exited -> sys_inv (init_sys s0).
Proof.
  intros H. split; [constructor|]. apply state_inv_idle. cbn.
  unfold idle. tauto.
Qed.

Lemma sys_inv_command (l l1 : Loop) (hs : list Helper) (ts : list Z)
  (c : Command) (o : list Effect) :
  Forall (fun pid => 0 < pid) ts -> state_inv (svc l) hs false ->
  handle (ICommand c) l = Some (tt, l1, o) ->
  sys_inv (mkSys l1 (hs ++ spawned o) (ts ++ armed o) false).
Proof.
  intros Hts Hst E.
  destruct (command_shape _ _ _ _ E)
    as (Hos & [(H1 & -> & ->)|[(H1 & H2 & -> & ->)
              |[(H1 & H2 & -> & pid & -> & H3)|(H1 & H2 & -> & ->)]]]);
    unfold sys_inv; cbn [timers helpers loop returned];
    rewrite ?app_nil_r.
  - split; [exact Hts|]. cbn [timers helpers loop returned svc with_svc]. eapply state_inv_same; eauto.
  - split; [exact Hts|]. cbn [timers helpers loop returned svc with_svc]. rewrite (state_inv_idle_nil _ _ _ H1 Hst).
    apply state_inv_spawn. exact H2.
  - pose proof (state_inv_stop _ _ _ _ Hos H1 H2 Hst) as Hst1.
    split; [|exact Hst1].
    apply Forall_app. split; [exact Hts|]. cbn [timers helpers loop returned svc with_svc]. constructor; [|constructor].
    unfold state_inv in Hst1. rewrite H2 in Hst1.
    destruct Hst1 as (h & _ & _ & _ & c0 & pid0 & Hc & Hp & Hpos).
    unfold Pid in H3. rewrite H2, Hc, Hp in H3. cbn in H3.
    inversion H3; subst. exact Hpos.
  - split; [exact Hts|]. cbn [timers helpers loop returned svc with_svc].
    assert (Hidle : idle (state (svc l))) by (unfold idle; tauto).
    rewrite (state_inv_idle_nil _ _ _ Hidle Hst).
    apply state_inv_idle. unfold idle. tauto.
Qed.

(** Every step of the loop or of a goroutine keeps the invariant. *)
Lemma sys_inv_step (y y1 : Sys) (a : SAction) (o : list Effect) :
  sys_inv y -> sys_step y a = SOk y1 o -> sys_inv y1.
Proof.
  destruct y as [l hs ts ret]. intros [Hts Hst].
  cbn [timers helpers loop returned] in Hts, Hst.
  destruct a as [c|n|n a|]; cbn [sys_step timers helpers loop returned].
  - (* a command is received *)
    destruct ret; [discriminate|]. unfold receive.
    destruct (shouldQuit l); [discriminate|].
    destruct (handle (ICommand c) l) as [[[[] l1] o1]|] eqn:E; [|discriminate].
    intros H; inversion H; subst; clear H.
    eapply sys_inv_command; eauto.
  - (* a stop timer fires *)
    destruct (nth_error ts n) as [pid|] eqn:En; [|discriminate].
    destruct ret.
    + intros H; inversion H; subst; clear H.
      split; [apply Forall_remove_nth; exact Hts|exact Hst].
    + unfold receive. destruct (shouldQuit l); [discriminate|].
      destruct (handle (IKill pid) l) as [[[[] l1] o1]|] eqn:E; [|discriminate].
      intros H; inversion H; subst; clear H.
      destruct (kill_shape _ _ _ _ E) as (-> & -> & ->).
      rewrite !app_nil_r.
      split; [apply Forall_remove_nth; exact Hts|exact Hst].
  - (* a helper takes a step *)
    destruct (nth_error hs n) as [h|] eqn:En; [|discriminate].
    destruct (state_inv_helper _ _ _ _ _ Hst En) as (-> & -> & -> & Hcase).
    destruct (hstep (svc l) h a) as [h1 s1 [p|]| |] eqn:Eh; try discriminate.
    + (* it posts on states *)
      unfold receive.
      destruct (shouldQuit (with_svc s1 l)); [discriminate|].
      destruct (handle (IState p) (with_svc s1 l)) as [[[[] l1] o1]|] eqn:E;
        [|discriminate].
      intros H; inversion H; subst; clear H.
      destruct (hstep_post_action _ _ _ _ _ _ Eh) as [-> | ->].
      * (* the timer posts Running *)
        destruct Hcase as [(Hs & ps & Hinv & Hm & Hlive)|(_ & Hran & _)];
          [|exfalso; eapply ran_no_timer_post; eauto].
        destruct (timer_post _ _ _ _ _ _ Hinv Hm Eh) as (-> & Hran & -> & Ht).
        rewrite with_svc_same in E.
        destruct (running_shape _ _ _ _ Hs E) as (Hos & Hst1 & Hsp & Harm).
        rewrite Hsp, Harm, !app_nil_r.
        assert (Hm1 : main h1 <> MDone) by (destruct Hran as (? & ? & ?); auto).
        unfold update_helper.
        assert (Hup : match main h1 with
                      | MDone => remove_nth 0 [h]
                      | _ => replace_nth 0 h1 [h]
                      end = [h1])
          by (destruct (main h1); try reflexivity; congruence).
        rewrite Hup. split; [exact Hts|]. cbn [timers helpers loop returned svc with_svc].
        unfold state_inv. destruct Hst1 as [-> | ->].
        -- destruct Hran as (ps1 & Hinv1 & _).
           exists h1. eexists. repeat split; eauto.
           intros _. eapply live_handle_only_state; eauto.
        -- exists h1. repeat split; auto.
           eapply live_handle_only_state; eauto.
      * (* main posts its final state *)
        assert (Hinv : exists ps, hinv h ps).
        { destruct Hcase as [(_ & ps & H & _)|(_ & (ps & H & _) & _)]; eauto. }
        destruct Hinv as (ps & Hinv).
        destruct (main_post _ _ _ _ _ _ Hinv Eh) as (Hfin & Hm1 & ->).
        rewrite with_svc_same in E.
        destruct (final_shape _ _ _ _ Hfin E) as (Hos & -> & Hshape).
        unfold update_helper. rewrite Hm1. cbn [remove_nth app].
        rewrite app_nil_r. split; [exact Hts|]. cbn [timers helpers loop returned svc with_svc].
        destruct Hshape as [(Hst1 & ->)|(Hst1 & ->)].
        -- apply state_inv_idle. unfold idle. tauto.
        -- apply state_inv_spawn. exact Hst1.
    + (* it takes a step of its own *)
      intros H; inversion H; subst; clear H.
      split; [exact Hts|]. cbn [timers helpers loop returned svc with_svc].
      destruct Hcase as [(Hs & ps & Hinv & Hm & Hlive)|(Hs & Hran & Hlive)].
      * destruct (hstep_internal _ _ _ _ _ _ Hinv Hm Eh)
          as (Hinv1 & Hm1 & Hs1 & Hl1 & _).
        unfold update_helper.
        assert (Hup : match main h1 with
                      | MDone => remove_nth 0 [h]
                      | _ => replace_nth 0 h1 [h]
                      end = [h1])
          by (destruct (main h1); try reflexivity; congruence).
        rewrite Hup. unfold state_inv. rewrite Hs1, Hs.
        exists h1, ps. repeat split; auto.
      * destruct (ran_internal _ _ _ _ _ Hran Eh) as (Hran1 & ->).
        assert (Hm1 : main h1 <> MDone)
          by (destruct Hran1 as (? & ? & ?); auto).
        unfold update_helper.
        assert (Hup : match main h1 with
                      | MDone => remove_nth 0 [h]
                      | _ => replace_nth 0 h1 [h]
                      end = [h1])
          by (destruct (main h1); try reflexivity; congruence).
        rewrite Hup. unfold state_inv.
        destruct Hs as [Hs|Hs]; rewrite Hs; exists h1; repeat split; auto.
  - (* Run returns *)
    destruct ret; [discriminate|].
    destruct (shouldQuit l) eqn:Eq; [|discriminate].
    destruct (finish l) as [[[[] l1] o1]|] eqn:E; [|discriminate].
    intros H; inversion H; subst; clear H.
    apply finish_shape in E. subst l1.
    split; [exact Hts|]. cbn [timers helpers loop returned svc with_svc].
    assert (Hidle : idle (state (svc l)))
      by (apply shouldQuit_idle in Eq; unfold idle; tauto).
    rewrite (state_inv_idle_nil _ _ _ Hidle Hst).
    apply state_inv_idle. exact Hidle.
Qed.

Lemma reachable_inv (s0 : Service) (y : Sys) :
  state s0 = Stopped \/ state s0 = Exited ->
  reachable s0 y -> sys_inv y.
Proof.
  intros H0 Hr. induction Hr as [|y a y1 o Hr IH Hstep].
  - apply sys_inv_init. exact H0.
  - eapply sys_inv_step; eauto.
Qed.

Lemma sys_run_reachable (s0 : Service) (acts : list SAction) (y y1 : Sys)
  (o : list Effect) :
  reachable s0 y -> sys_run y acts = Some (y1, o) -> reachable s0 y1.
Proof.
  revert y o. induction acts as [|a rest IH]; intros y o Hr; cbn.
  - intros H; inversion H; subst. exact Hr.
  - destruct (sys_step y a) as [y2 o2| |] eqn:E; try discriminate.
    destruct (sys_run y2 rest) as [[y3 o3]|] eqn:E2; try discriminate.
    intros H; inversion H; subst. eapply IH; [|exact E2].
    eapply reach_step; eauto.
Qed.

(** C9, as stated, fails from right to left.  After a [start], the launch
    of the child and a [stop], the service is Stopped and [command] still
    holds the handle of the child that was stopped: the package never sets
    it back to nil. *)
Lemma handle_survives_stop :
  ~ (forall y, reachable sleeper y ->
       (command (svc (loop y)) <> None <->
        state (svc (loop y)) = Running \/ state (svc (loop y)) = Stopping)).
Proof.
  intros H.
  assert (Hrun : exists y o,
             sys_run (init_sys sleeper) start_then_stop = Some (y, o) /\
             state (svc (loop y)) = Stopped /\
             command (svc (loop y)) = Some (child 42)).
  { eexists. eexists. split; [vm_compute; reflexivity|]. split; reflexivity. }
  destruct Hrun as (y & o & E & Hs & Hc).
  pose proof (sys_run_reachable sleeper _ _ _ _ (reach_init sleeper) E) as Hr.
  destruct (H y Hr) as [H1 _]. rewrite Hc, Hs in H1.
  destruct H1 as [H1|H1]; discriminate.
Qed.

(** C9, amended.  In every state reachable during a run of the control
    loop on a service that starts Stopped or Exited, if the service is
    Running or Stopping then the child-process handle is non-nil, holds a
    started process, and [Pid] returns its pid, which is positive. *)
Theorem handle_present_when_running (s0 : Service) (y : Sys) :
  state s0 = Stopped \/ state s0 = Exited ->
  reachable s0 y ->
  state (svc (loop y)) = Running \/ state (svc (loop y)) = Stopping ->
  exists c pid,
    command (svc (loop y)) = Some c /\ Process c = Some pid /\
    Pid (svc (loop y)) = Some pid /\ 0 < pid.
Proof.
  intros H0 Hr Hs. destruct (reachable_inv _ _ H0 Hr) as [_ Hst].
  unfold state_inv in Hst.
  assert (Hlive : live_handle (svc (loop y))).
  { destruct Hs as [Hs|Hs]; rewrite Hs in Hst;
      destruct Hst as (h & _ & _ & _ & Hl); exact Hl. }
  destruct Hlive as (c & pid & Hc & Hp & Hpos). exists c, pid.
  repeat split; auto. unfold Pid. rewrite Hc.
  destruct Hs as [-> | ->]; exact Hp.
Qed.

(** The default service once its child 42 is Running. *)
Lemma handle_present_when_running_witness :
  exists c pid,
    command (svc (loop running_sys)) = Some c /\ Process c = Some pid /\
    Pid (svc (loop running_sys)) = Some pid /\ 0 < pid.
Proof.
  apply (handle_present_when_running sleeper running_sys).
  - left. reflexivity.
  - eapply (sys_run_reachable sleeper start_to_running (init_sys sleeper)).
    + apply reach_init.
    + vm_compute. reflexivity.
  - left. reflexivity.
Defined.

(** *** No step of a run panics *)

Lemma handle_only_state (i : Input) (l l1 : Loop) (o : list Effect) :
  handle i l = Some (tt, l1, o) -> only_state (svc l) (svc l1).
Proof.
  destruct i as [[pst pe]|c|pid].
  - destruct l as [[d e0 st sr sg sto re so se ar cm stt] c0 r].
    destruct c0 as [[n0 k0]|];
      (destruct cm as [[pa ag co ce en di p]|]; destruct pst; loop_crunch;
       intros H; inversion H; subst; clear H; reflexivity).
  - intros H. apply (command_shape _ _ _ _ H).
  - intros H. destruct (kill_shape _ _ _ _ H) as (-> & _).
    destruct l as [[]]; reflexivity.
Qed.

(** The loop body runs to its end when the handle is usable in Running and
    Stopping and the pid of a kill notification is positive. *)
Lemma handle_total (i : Input) (l : Loop) :
  (state (svc l) = Running \/ state (svc l) = Stopping ->
   live_handle (svc l)) ->
  (forall pid, i = IKill pid -> 0 < pid) ->
  exists l1 o, handle i l = Some (tt, l1, o).
Proof.
  destruct l as [[d e0 st sr sg sto re so se ar cm stt] c0 r].
  cbn [svc state]. intros Hlive Hk.
  assert (Hcm : (stt = Running \/ stt = Stopping) ->
                exists pa ag co ce en di p,
                  cm = Some (mkCmd pa ag co ce en di (Some p))).
  { intros Hs. destruct (Hlive Hs) as ([pa ag co ce en di p] & pid & Hc & Hp & _).
    cbn in Hc, Hp. subst. do 7 eexists. reflexivity. }
  clear Hlive.
  destruct i as [[pst pe]|[n k]|pid].
  - destruct c0 as [[n0 k0]|];
      (destruct stt;
       try (destruct Hcm as (pa & ag & co & ce & en & di & p & ->);
            [auto; fail|]);
       destruct pst; loop_crunch; do 2 eexists; reflexivity).
  - destruct c0 as [[n0 k0]|];
      (destruct stt;
       try (destruct Hcm as (pa & ag & co & ce & en & di & p & ->);
            [auto; fail|]);
       loop_crunch; do 2 eexists; reflexivity).
  - specialize (Hk pid eq_refl).
    destruct stt;
      try (destruct Hcm as (pa & ag & co & ce & en & di & p & ->);
           [auto; fail|]);
      loop_unfold;
      try (destruct (pid =? 0) eqn:E; [apply Z.eqb_eq in E; lia|]);
      try (destruct (pid =? p)); do 2 eexists; reflexivity.
Qed.

Lemma state_inv_live (s : Service) (hs : list Helper) (ret : bool) :
  state_inv s hs ret ->
  state s = Running \/ state s = Stopping -> live_handle s.
Proof.
  unfold state_inv. intros H [Hs|Hs]; rewrite Hs in H;
    destruct H as (h & _ & _ & _ & Hl); exact Hl.
Qed.

Lemma sys_step_args (y y1 : Sys) (a : SAction) (o : list Effect) :
  sys_step y a = SOk y1 o -> args (svc (loop y1)) = args (svc (loop y)).
Proof.
  destruct y as [l hs ts ret].
  destruct a as [c|n|n a|]; cbn [sys_step timers helpers loop returned].
  - destruct ret; [discriminate|]. unfold receive.
    destruct (shouldQuit l); [discriminate|].
    destruct (handle (ICommand c) l) as [[[[] l1] o1]|] eqn:E; [|discriminate].
    intros H; inversion H; subst; clear H. cbn.
    apply (only_state_command _ _ (handle_only_state _ _ _ _ E)).
  - destruct (nth_error ts n) as [pid|]; [|discriminate].
    destruct ret; [intros H; inversion H; reflexivity|].
    unfold receive. destruct (shouldQuit l); [discriminate|].
    destruct (handle (IKill pid) l) as [[[[] l1] o1]|] eqn:E; [|discriminate].
    intros H; inversion H; subst; clear H. cbn.
    apply (only_state_command _ _ (handle_only_state _ _ _ _ E)).
  - destruct (nth_error hs n) as [h|]; [|discriminate].
    destruct (hstep (svc l) h a) as [h1 s1 [p|]| |] eqn:Eh; try discriminate.
    + destruct ret; [discriminate|]. unfold receive.
      destruct (shouldQuit (with_svc s1 l)); [discriminate|].
      destruct (handle (IState p) (with_svc s1 l)) as [[[[] l1] o1]|] eqn:E;
        [|discriminate].
      intros H; inversion H; subst; clear H. cbn.
      destruct (only_state_command _ _ (handle_only_state _ _ _ _ E)) as [_ ->].
      cbn. apply (hstep_args _ _ _ _ _ _ Eh).
    + intros H; inversion H; subst; clear H. cbn.
      apply (hstep_args _ _ _ _ _ _ Eh).
  - destruct ret; [discriminate|].
    destruct (shouldQuit l); [|discriminate].
    destruct (finish l) as [[[[] l1] o1]|] eqn:E; [|discriminate].
    intros H; inversion H; subst; clear H. cbn.
    apply finish_shape in E. subst. reflexivity.
Qed.

Lemma reachable_args (s0 : Service) (y : Sys) :
  reachable s0 y -> args (svc (loop y)) = args s0.
Proof.
  intros Hr. induction Hr as [|y a y1 o Hr IH Hstep]; [reflexivity|].
  rewrite (sys_step_args _ _ _ _ Hstep). exact IH.
Qed.

(** From a reachable state no step of the loop, of a helper or of a stop
    timer ends in a runtime panic: no nil handle is dereferenced, no send
    hits a closed channel. *)
Theorem run_never_panics (s0 : Service) (y : Sys) (a : SAction) :
  state s0 = Stopped \/ state s0 = Exited ->
  args s0 <> [] ->
  reachable s0 y ->
  sys_step y a <> SPanic.
Proof.
  intros H0 Hargs Hr.
  pose proof (reachable_args _ _ Hr) as Ha.
  destruct (reachable_inv _ _ H0 Hr) as [Hts Hst].
  destruct y as [l hs ts ret].
  cbn [timers helpers loop returned] in *.
  destruct a as [c|n|n a|]; cbn [sys_step timers helpers loop returned].
  - destruct ret; [discriminate|]. unfold receive.
    destruct (shouldQuit l); [discriminate|].
    destruct (handle_total (ICommand c) l (state_inv_live _ _ _ Hst))
      as (l1 & o & ->); [discriminate|discriminate].
  - destruct (nth_error ts n) as [pid|] eqn:En; [|discriminate].
    destruct ret; [discriminate|]. unfold receive.
    destruct (shouldQuit l); [discriminate|].
    destruct (handle_total (IKill pid) l (state_inv_live _ _ _ Hst))
      as (l1 & o & ->); [|discriminate].
    intros q Hq. inversion Hq; subst.
    rewrite Forall_forall in Hts. apply Hts. eapply nth_error_In; eauto.
  - destruct (nth_error hs n) as [h|] eqn:En; [|discriminate].
    destruct (state_inv_helper _ _ _ _ _ Hst En) as (-> & -> & -> & Hcase).
    assert (Hinv : exists ps, hinv h ps).
    { destruct Hcase as [(_ & ps & H & _)|(_ & (ps & H & _) & _)]; eauto. }
    destruct Hinv as (ps & Hinv).
    destruct (hstep (svc l) h a) as [h1 s1 [p|]| |] eqn:Eh; try discriminate.
    + assert (s1 = svc l) as ->.
      { destruct (hstep_post_action _ _ _ _ _ _ Eh) as [-> | ->].
        - destruct Hcase as [(_ & ps1 & Hi & Hm & _)|(_ & Hran & _)].
          + apply (timer_post _ _ _ _ _ _ Hi Hm Eh).
          + exfalso. eapply ran_no_timer_post; eauto.
        - apply (main_post _ _ _ _ _ _ Hinv Eh). }
      rewrite with_svc_same. unfold receive.
      destruct (shouldQuit l); [discriminate|].
      destruct (handle_total (IState p) l (state_inv_live _ _ _ Hst))
        as (l1 & o & ->); discriminate.
    + exfalso. eapply hinv_no_panic; [|exact Hinv|exact Eh].
      rewrite Ha. exact Hargs.
  - destruct ret; [discriminate|].
    destruct (shouldQuit l); [|discriminate].
    destruct l as [s [[n [k|]]|] r]; discriminate.
Qed.

(** The default service, before anything has happened. *)
Lemma run_never_panics_witness :
  sys_step (init_sys sleeper) (SCommand (mkCommand Start None)) <> SPanic.
Proof.
  apply (run_never_panics sleeper).
  - left. reflexivity.
  - discriminate.
  - apply reach_init.
Defined.


End SystemFacts.

(** * Further properties of the control loop *)

(** ** The retry counter *)

Lemma int_wrap_small (z : Z) : in_int z -> int_wrap z = z.
Proof.
  unfold in_int, int_wrap. intros H. rewrite Z.mod_small; lia.
Qed.

Ltac ltb_hyps :=
  repeat match goal with
         | H : (_ <? _) = true |- _ => apply Z.ltb_lt in H
         | H : (_ <? _) = false |- _ => apply Z.ltb_ge in H
         | H : (_ =? _) = true |- _ => apply Z.eqb_eq in H
         | H : (_ =? _) = false |- _ => apply Z.eqb_neq in H
         end.

Lemma handle_retries_bound (i : Input) (l l1 : Loop) (o : list Effect) :
  handle i l = Some (tt, l1, o) ->
  StartRetries (svc l) < 2 ^ 63 ->
  0 <= retries l <= Z.max 0 (StartRetries (svc l)) ->
  0 <= retries l1 <= Z.max 0 (StartRetries (svc l)).
Proof.
  destruct l as [[d e0 st sr sg sto re so se ar cm stt] c0 r].
  cbn [svc retries StartRetries]. intros H Hmax Hr. revert H.
  destruct i as [[pst pe]|[n k]|pid].
  - destruct c0 as [[n0 k0]|];
      (destruct cm as [[pa ag co ce en di p]|]; destruct pst; loop_crunch;
       intros H; inversion H; subst; clear H; cbn [retries]; ltb_hyps;
       try (rewrite int_wrap_small by (unfold in_int; lia)); lia).
  - destruct c0 as [[n0 k0]|];
      (destruct cm as [[pa ag co ce en di p]|]; loop_crunch;
       intros H; inversion H; subst; clear H; cbn [retries]; lia).
  - intros H. destruct (SystemFacts.kill_shape _ _ _ _ H) as (-> & _).
    exact Hr.
Qed.

Lemma handle_keeps_StartRetries (i : Input) (l l1 : Loop) (o : list Effect) :
  handle i l = Some (tt, l1, o) -> StartRetries (svc l1) = StartRetries (svc l).
Proof.
  intros H. apply SystemFacts.handle_only_state in H.
  unfold only_state in H. rewrite H. reflexivity.
Qed.

Lemma Run_loop_retries_bound (ins : list Input) (l l1 : Loop) (st : Status)
  (o : list Effect) :
  Run_loop ins l = Some (st, l1, o) ->
  StartRetries (svc l) < 2 ^ 63 ->
  0 <= retries l <= Z.max 0 (StartRetries (svc l)) ->
  0 <= retries l1 <= Z.max 0 (StartRetries (svc l)).
Proof.
  revert l o. induction ins as [|i rest IH]; intros l o; cbn [Run_loop].
  - destruct (shouldQuit l).
    + destruct l as [s [[n [k|]]|] r]; cbn; intros H; inversion H; subst; auto.
    + intros H; inversion H; subst; auto.
  - destruct (shouldQuit l).
    + destruct l as [s [[n [k|]]|] r]; cbn; intros H; inversion H; subst; auto.
    + destruct (handle i l) as [[[[] l2] o2]|] eqn:E; [|discriminate].
      destruct (Run_loop rest l2) as [[[st3 l3] o3]|] eqn:E2; [|discriminate].
      intros H Hmax Hr. inversion H; subst.
      rewrite <- (handle_keeps_StartRetries _ _ _ _ E) in *.
      eapply IH; eauto.
      rewrite (handle_keeps_StartRetries _ _ _ _ E).
      eapply handle_retries_bound; eauto.
      all: rewrite <- (handle_keeps_StartRetries _ _ _ _ E); assumption.
Qed.

(** Whatever messages a run receives, the retry counter stays between 0
    and [StartRetries] (and at 0 when [StartRetries] is not positive), for
    a [StartRetries] below the largest [int]. *)
Theorem retries_bounded (s : Service) (ins : list Input) (st : Status)
  (l : Loop) (o : list Effect) :
  StartRetries s < 2 ^ 63 ->
  Run s ins = Some (st, l, o) ->
  0 <= retries l <= Z.max 0 (StartRetries s).
Proof.
  intros Hmax H.
  apply (Run_loop_retries_bound ins (mkLoop s None 0) l st o H Hmax).
  cbn. lia.
Qed.

Lemma retries_bounded_witness :
  0 <= 3 <= Z.max 0 (StartRetries sleeper).
Proof.
  apply (retries_bounded sleeper
           [ask Start 1%nat; premature; premature; premature]
           Selecting
           (mkLoop (set_state Starting sleeper)
              (Some (mkCommand Start (Some 1%nat))) 3)
           [EEvent Starting None; ESpawn;
            EEvent Backoff
              (Some "process exited prematurely with failure: exit status 1");
            EEvent Starting None; ESpawn;
            EEvent Backoff
              (Some "process exited prematurely with failure: exit status 1");
            EEvent Starting None; ESpawn;
            EEvent Backoff
              (Some "process exited prematurely with failure: exit status 1");
            EEvent Starting None; ESpawn]).
  - reflexivity.
  - reflexivity.
Defined.

(** ** What one iteration emits *)

(** Two tests of one command name that cannot both have come out true. *)
Ltac name_clash :=
  exfalso;
  repeat match goal with
         | H : (_ =s _) = true |- _ => apply String.eqb_eq in H
         end;
  subst;
  match goal with
  | H : (?a =s ?b) = _ |- _ => vm_compute in H; discriminate H
  | H : ?a = ?b |- _ => discriminate H
  end.

Lemma handle_trace_facts (i : Input) (l l1 : Loop) (o : list Effect) :
  handle i l = Some (tt, l1, o) ->
  (state (svc l) <> Backoff ->
   state (svc l1) = last_state o (state (svc l)) /\
   state (svc l1) <> Backoff) /\
  protocol_ok (StopSignal (svc l)) o = true /\
  (length (responses o) <= 1)%nat.
Proof.
  destruct l as [[d e0 st sr sg sto re so se ar cm stt] c0 r].
  cbn [svc state StopSignal].
  destruct i as [[pst pe]|[n k]|pid].
  - destruct c0 as [[n0 k0]|];
      (destruct cm as [[pa ag co ce en di p]|]; destruct pst; loop_crunch;
       intros H; inversion H; subst; clear H;
       (split; [intros Hb; cbn; (split; congruence)|]);
       cbn; rewrite ?Z.eqb_refl;
       (split; [reflexivity|first [lia|name_clash]])).
  - destruct c0 as [[n0 k0]|];
      (destruct cm as [[pa ag co ce en di p]|]; loop_crunch;
       intros H; inversion H; subst; clear H;
       (split; [intros Hb; cbn; (split; congruence)|]);
       cbn; rewrite ?Z.eqb_refl;
       (split; [reflexivity|first [lia|name_clash]])).
  - destruct cm as [[pa ag co ce en di p]|]; loop_crunch;
      intros H; inversion H; subst; clear H;
      (split; [intros Hb; cbn; (split; congruence)|]);
      cbn; (split; [reflexivity|lia]).
Qed.

Lemma protocol_ok_app_bounded (sig : Signal) (n : nat) :
  forall o1 o2 : list Effect,
    (length o1 <= n)%nat ->
    protocol_ok sig o1 = true -> protocol_ok sig o2 = true ->
    protocol_ok sig (o1 ++ o2) = true.
Proof.
  induction n as [|n IH]; intros o1 o2 Hlen H1 H2.
  - destruct o1; [exact H2|cbn in Hlen; lia].
  - destruct o1 as [|e o1]; [exact H2|]. cbn in Hlen.
    destruct e as [st err|k nm err| |p sg|p|p]; cbn in H1 |- *;
      try discriminate;
      try (apply IH; [lia|assumption|assumption]).
    destruct st;
      try (apply IH; [lia|assumption|assumption]).
    + destruct o1 as [|[| | | | |] o1]; try discriminate.
      cbn in Hlen |- *. apply IH; [lia|assumption|assumption].
    + destruct o1 as [|[| | | | |] o1]; try discriminate.
      destruct o1 as [|[| | | | |] o1]; try discriminate.
      cbn in Hlen |- *. apply andb_true_iff in H1. destruct H1 as [H1 H3].
      rewrite H1. cbn. apply IH; [lia|assumption|assumption].
Qed.

Lemma protocol_ok_app (sig : Signal) (o1 o2 : list Effect) :
  protocol_ok sig o1 = true -> protocol_ok sig o2 = true ->
  protocol_ok sig (o1 ++ o2) = true.
Proof. apply (protocol_ok_app_bounded sig (length o1)). lia. Qed.

Lemma finish_trace (l l1 : Loop) (o : list Effect) (sig : Signal) :
  finish l = Some (tt, l1, o) -> protocol_ok sig o = true /\ events o = [].
Proof.
  destruct l as [s [[n [k|]]|] r]; cbn; intros H; inversion H; subst;
    split; reflexivity.
Qed.

Lemma handle_keeps_StopSignal (i : Input) (l l1 : Loop) (o : list Effect) :
  handle i l = Some (tt, l1, o) -> StopSignal (svc l1) = StopSignal (svc l).
Proof.
  intros H. apply SystemFacts.handle_only_state in H.
  unfold only_state in H. rewrite H. reflexivity.
Qed.

Lemma Run_loop_protocol (ins : list Input) (l l1 : Loop) (st : Status)
  (o : list Effect) :
  Run_loop ins l = Some (st, l1, o) ->
  protocol_ok (StopSignal (svc l)) o = true.
Proof.
  revert l o. induction ins as [|i rest IH]; intros l o; cbn [Run_loop].
  - destruct (shouldQuit l).
    + destruct (finish l) as [[[[] l2] o2]|] eqn:E; [|discriminate].
      intros H; inversion H; subst. apply (finish_trace _ _ _ _ E).
    + intros H; inversion H; subst. reflexivity.
  - destruct (shouldQuit l).
    + destruct (finish l) as [[[[] l2] o2]|] eqn:E; [|discriminate].
      intros H; inversion H; subst. apply (finish_trace _ _ _ _ E).
    + destruct (handle i l) as [[[[] l2] o2]|] eqn:E; [|discriminate].
      destruct (Run_loop rest l2) as [[[st3 l3] o3]|] eqn:E2; [|discriminate].
      intros H. inversion H; subst. apply protocol_ok_app.
      * apply (handle_trace_facts _ _ _ _ E).
      * rewrite <- (handle_keeps_StopSignal _ _ _ _ E). eapply IH; eauto.
Qed.

(** In the trace of a run, whatever it receives, every Starting event is
    at once followed by the spawn of a lifecycle helper and every Stopping
    event by the configured stop signal to the child and the arming of a
    kill timer with the same pid; helpers, signals and timers occur nowhere
    else. *)
Theorem run_follows_protocol (s : Service) (ins : list Input) (st : Status)
  (l : Loop) (o : list Effect) :
  Run s ins = Some (st, l, o) ->
  protocol_ok (StopSignal s) o = true.
Proof. intros H. apply (Run_loop_protocol ins (mkLoop s None 0) l st o H). Qed.

Lemma run_follows_protocol_witness :
  protocol_ok (StopSignal sleeper)
    [EEvent Starting None; ESpawn; EEvent Running None;
     EResponse 1%nat "start" None] = true.
Proof.
  apply (run_follows_protocol sleeper [ask Start 1%nat; is_running] Selecting
           (mkLoop (set_state Running sleeper) None 0)).
  reflexivity.
Defined.

(** One iteration of the loop sends at most one response. *)
Theorem one_response_per_iteration (i : Input) (l l1 : Loop)
  (o : list Effect) :
  handle i l = Some (tt, l1, o) -> (length (responses o) <= 1)%nat.
Proof. intros H. apply (handle_trace_facts _ _ _ _ H). Qed.

Lemma one_response_per_iteration_witness :
  (length (responses [EResponse 1%nat "stop"
                        (Some "invalid state transition: stopped -> stopping")])
   <= 1)%nat.
Proof.
  apply (one_response_per_iteration (ask Stop 1%nat) (mkLoop sleeper None 0)
           (mkLoop sleeper None 0)).
  reflexivity.
Defined.

(** ** The loop with its goroutines, continued *)

Module SystemMore.
Import Lifecycle LifecycleFacts System SystemFacts.

Lemma sys_step_state (y y1 : Sys) (a : SAction) (o : list Effect) :
  sys_step y a = SOk y1 o ->
  state (svc (loop y)) <> Backoff ->
  state (svc (loop y1)) = last_state o (state (svc (loop y))) /\
  state (svc (loop y1)) <> Backoff.
Proof.
  destruct y as [l hs ts ret].
  destruct a as [c|n|n a|]; cbn [sys_step timers helpers loop returned].
  - destruct ret; [discriminate|]. unfold receive.
    destruct (shouldQuit l); [discriminate|].
    destruct (handle (ICommand c) l) as [[[[] l1] o1]|] eqn:E; [|discriminate].
    intros H; inversion H; subst; clear H. cbn [loop].
    apply (handle_trace_facts _ _ _ _ E).
  - destruct (nth_error ts n) as [pid|]; [|discriminate].
    destruct ret; [intros H; inversion H; subst; cbn; auto|].
    unfold receive. destruct (shouldQuit l); [discriminate|].
    destruct (handle (IKill pid) l) as [[[[] l1] o1]|] eqn:E; [|discriminate].
    intros H; inversion H; subst; clear H. cbn [loop].
    apply (handle_trace_facts _ _ _ _ E).
  - destruct (nth_error hs n) as [h|]; [|discriminate].
    destruct (hstep (svc l) h a) as [h1 s1 [p|]| |] eqn:Eh; try discriminate.
    + destruct ret; [discriminate|]. unfold receive.
      destruct (shouldQuit (with_svc s1 l)); [discriminate|].
      destruct (handle (IState p) (with_svc s1 l)) as [[[[] l1] o1]|] eqn:E;
        [|discriminate].
      intros H; inversion H; subst; clear H. cbn [loop].
      destruct (hstep_args _ _ _ _ _ _ Eh) as (_ & Hs & _).
      rewrite <- Hs. apply (handle_trace_facts _ _ _ _ E).
    + intros H; inversion H; subst; clear H. cbn [loop with_svc svc].
      destruct (hstep_args _ _ _ _ _ _ Eh) as (_ & -> & _).
      cbn. auto.
  - destruct ret; [discriminate|].
    destruct (shouldQuit l); [|discriminate].
    destruct (finish l) as [[[[] l1] o1]|] eqn:E; [|discriminate].
    intros H; inversion H; subst; clear H. cbn [loop].
    pose proof (finish_trace _ _ _ 0 E) as [_ He].
    apply finish_shape in E. subst.
    unfold last_state. rewrite He. cbn. auto.
Qed.

Lemma reachable_not_backoff (s0 : Service) (y : Sys) :
  state s0 = Stopped \/ state s0 = Exited ->
  reachable s0 y -> state (svc (loop y)) <> Backoff.
Proof.
  intros H0 Hr. induction Hr as [|y a y1 o Hr IH Hstep].
  - cbn. destruct H0 as [-> | ->]; discriminate.
  - apply (sys_step_state _ _ _ _ Hstep IH).
Qed.

(** Every change of the service state is announced: after any step of a
    run the state is the one named by the last event emitted in that step,
    and unchanged when the step emitted none.  Backoff is only passed
    through inside an iteration; between iterations the service is never
    in it. *)
Theorem events_track_state (s0 : Service) (y y1 : Sys) (a : SAction)
  (o : list Effect) :
  state s0 = Stopped \/ state s0 = Exited ->
  reachable s0 y ->
  sys_step y a = SOk y1 o ->
  state (svc (loop y1)) = last_state o (state (svc (loop y))) /\
  state (svc (loop y)) <> Backoff /\ state (svc (loop y1)) <> Backoff.
Proof.
  intros H0 Hr Hstep.
  pose proof (reachable_not_backoff _ _ H0 Hr) as Hb.
  destruct (sys_step_state _ _ _ _ Hstep Hb) as [H1 H2]. auto.
Qed.

Lemma events_track_state_witness :
  Starting = last_state [EEvent Starting None; ESpawn] Stopped /\
  Stopped <> Backoff /\ Starting <> Backoff.
Proof.
  apply (events_track_state sleeper (init_sys sleeper)
           (mkSys (mkLoop (set_state Starting sleeper)
                     (Some (mkCommand Start None)) 0) [hinit] [] false)
           (SCommand (mkCommand Start None))
           [EEvent Starting None; ESpawn]).
  - left. reflexivity.
  - apply reach_init.
  - reflexivity.
Defined.

(** In every reachable state [Pid] returns without a panic, and what it
    returns is nonzero exactly when the service is Running or Stopping. *)
Theorem pid_nonzero_iff_running (s0 : Service) (y : Sys) :
  state s0 = Stopped \/ state s0 = Exited ->
  reachable s0 y ->
  exists p,
    Pid (svc (loop y)) = Some p /\
    (p <> 0 <->
     state (svc (loop y)) = Running \/ state (svc (loop y)) = Stopping).
Proof.
  intros H0 Hr. destruct (reachable_inv _ _ H0 Hr) as [_ Hst].
  pose proof (state_inv_live _ _ _ Hst) as Hlive.
  unfold Pid.
  destruct (state (svc (loop y))) eqn:Es; cbn;
    try (exists 0; split; [reflexivity|];
         split; [congruence|intros [H|H]; discriminate]).
  - destruct Hlive as (c & pid & -> & -> & Hpos); [auto|].
    exists pid. split; [reflexivity|]. split; [auto|lia].
  - destruct Hlive as (c & pid & -> & -> & Hpos); [auto|].
    exists pid. split; [reflexivity|]. split; [auto|lia].
Qed.

Lemma pid_nonzero_iff_running_witness :
  exists p,
    Pid (svc (loop running_sys)) = Some p /\
    (p <> 0 <->
     state (svc (loop running_sys)) = Running \/
     state (svc (loop running_sys)) = Stopping).
Proof.
  apply (pid_nonzero_iff_running sleeper running_sys).
  - left. reflexivity.
  - eapply (sys_run_reachable sleeper start_to_running (init_sys sleeper)).
    + apply reach_init.
    + vm_compute. reflexivity.
Defined.

(** At any moment of a run at most one lifecycle helper is alive, and one
    is alive exactly while the service is Starting, Running or Stopping:
    a new attempt is only begun after the helper of the previous one has
    posted its final state. *)
Theorem one_helper_at_a_time (s0 : Service) (y : Sys) :
  state s0 = Stopped \/ state s0 = Exited ->
  reachable s0 y ->
  (length (helpers y) <= 1)%nat /\
  (helpers y = [] <-> idle (state (svc (loop y)))).
Proof.
  intros H0 Hr. destruct (reachable_inv _ _ H0 Hr) as [_ Hst].
  unfold state_inv in Hst. unfold idle.
  destruct (state (svc (loop y))) eqn:Es;
    try (rewrite Hst; cbn; split; [lia|tauto]).
  - destruct Hst as (h & ps & -> & _). cbn. split; [lia|].
    split; [discriminate|intros [H|[H|H]]; discriminate].
  - destruct Hst as (h & -> & _). cbn. split; [lia|].
    split; [discriminate|intros [H|[H|H]]; discriminate].
  - destruct Hst as (h & -> & _). cbn. split; [lia|].
    split; [discriminate|intros [H|[H|H]]; discriminate].
Qed.

Lemma one_helper_at_a_time_witness :
  (length (helpers running_sys) <= 1)%nat /\
  (helpers running_sys = [] <-> idle (state (svc (loop running_sys)))).
Proof.
  apply (one_helper_at_a_time sleeper running_sys).
  - left. reflexivity.
  - eapply (sys_run_reachable sleeper start_to_running (init_sys sleeper)).
    + apply reach_init.
    + vm_compute. reflexivity.
Defined.

End SystemMore.

(** ** Commands from acceptance to response *)

(** Brings a loop whose state, handle and command in flight are given by
    hypotheses into evaluated form. *)
Ltac concrete_loop l :=
  let d := fresh "d" in
  destruct l as [[d ? ? ? ? ? ? ? ? ? ? ?] ? ?];
  cbn [svc state lcommand command retries StopRestart StopSignal
       StartRetries] in *;
  subst.

Lemma Run_loop_returns (ins : list Input) (l : Loop) :
  shouldQuit l = true ->
  Run_loop ins l
  = match finish l with
    | Some (_, l1, o) => Some (Returned, l1, o)
    | None => None
    end.
Proof. intros H. destruct ins; cbn [Run_loop]; rewrite H; reflexivity. Qed.

Lemma Run_loop_step (i : Input) (rest : list Input) (l : Loop) :
  shouldQuit l = false ->
  Run_loop (i :: rest) l
  = match handle i l with
    | None => None
    | Some (_, l1, o1) =>
        match Run_loop rest l1 with
        | None => None
        | Some (st, l2, o2) => Some (st, l2, o1 ++ o2)
        end
    end.
Proof. intros H. cbn [Run_loop]. rewrite H. reflexivity. Qed.

(** The loop condition, evaluated. *)
Ltac loop_returns :=
  match goal with
  | |- context [Run_loop ?r ?l] => rewrite (Run_loop_returns r l eq_refl)
  end.

Ltac loop_steps :=
  match goal with
  | |- context [Run_loop (?i :: ?r) ?l] =>
      rewrite (Run_loop_step i r l eq_refl)
  end.

(** Evaluates the iteration at the head of the goal. *)
Ltac eval_handle :=
  match goal with
  | |- context [handle ?i ?l] =>
      let v := eval cbv in (handle i l) in
      change (handle i l) with v; cbv beta iota
  end.

(** A [start], or a [restart], received while the service is Stopped or
    Exited and no command is in flight begins an attempt and is answered
    only when the helper reports Running, with success. *)
Theorem start_answered_on_running (l : Loop) (c : Command) :
  state (svc l) = Stopped \/ state (svc l) = Exited ->
  lcommand l = None ->
  Name c = Start \/ Name c = Restart ->
  handle (ICommand c) l
  = Some (tt, mkLoop (set_state Starting (svc l)) (Some c) (retries l),
          [EEvent Starting None; ESpawn]) /\
  handle (IState (mkProcessState Running None))
    (mkLoop (set_state Starting (svc l)) (Some c) (retries l))
  = Some (tt, mkLoop (set_state Running (svc l)) None (retries l),
          EEvent Running None :: reply c None).
Proof.
  intros Hs Hc Hn. destruct c as [n k]. cbn [Name] in Hn. unfold reply.
  cbn [Response Name]. concrete_loop l.
  destruct Hs as [-> | ->], Hn as [-> | ->], k; split; reflexivity.
Qed.

Lemma start_answered_on_running_witness :
  handle (ask Start 1%nat) (mkLoop sleeper None 0)
  = Some (tt, mkLoop (set_state Starting sleeper)
                (Some (mkCommand Start (Some 1%nat))) 0,
          [EEvent Starting None; ESpawn]) /\
  handle (IState (mkProcessState Running None))
    (mkLoop (set_state Starting sleeper)
       (Some (mkCommand Start (Some 1%nat))) 0)
  = Some (tt, mkLoop (set_state Running sleeper) None 0,
          [EEvent Running None; EResponse 1%nat "start" None]).
Proof.
  apply (start_answered_on_running (mkLoop sleeper None 0)
           (mkCommand Start (Some 1%nat))).
  - left. reflexivity.
  - reflexivity.
  - left. reflexivity.
Defined.

(** A [stop] received while the service is Running and no command is in
    flight emits Stopping, signals the child and arms the kill timer; it is
    answered, with success, when the child's exit is reported (as Exited or
    as Backoff), and the service is then Stopped. *)
Theorem stop_answered_on_exit (l : Loop) (c : Command) (h : Cmd) (pid : Z)
  (ps : ProcessState) :
  state (svc l) = Running ->
  lcommand l = None ->
  command (svc l) = Some h -> Process h = Some pid ->
  Name c = Stop ->
  ps_State ps = Exited \/ ps_State ps = Backoff ->
  Run_loop [ICommand c; IState ps] l
  = Some (Selecting, mkLoop (set_state Stopped (svc l)) None (retries l),
          [EEvent Stopping None; ESignal pid (StopSignal (svc l));
           EArmKill pid; EEvent Stopped None] ++ reply c None).
Proof.
  intros Hs Hc Hh Hp Hn Hps. destruct c as [n k], ps as [pst pe].
  destruct h as [pa ag co ce en di p].
  cbn [Name Process ps_State] in *. unfold reply. cbn [Response Name].
  concrete_loop l.
  destruct Hps as [-> | ->], k; reflexivity.
Qed.

Lemma stop_answered_on_exit_witness :
  Run_loop [ask Stop 1%nat; IState (mkProcessState Exited (Some "exit"))]
    (sleeper_loop Running 42 None)
  = Some (Selecting, sleeper_loop Stopped 42 None,
          [EEvent Stopping None; ESignal 42 2; EArmKill 42;
           EEvent Stopped None; EResponse 1%nat "stop" None]).
Proof.
  apply (stop_answered_on_exit (sleeper_loop Running 42 None)
           (mkCommand Stop (Some 1%nat)) (child 42) 42
           (mkProcessState Exited (Some "exit")));
    try reflexivity.
  left. reflexivity.
Defined.

(** A [restart] received while the service is Running stops the child like
    a [stop]; when the exit is reported the service becomes Stopped, and
    that is all: no new attempt is begun and the [restart] stays in flight
    without a response. *)
Theorem restart_while_running_only_stops (l : Loop) (c : Command) (h : Cmd)
  (pid : Z) (ps : ProcessState) :
  state (svc l) = Running ->
  lcommand l = None ->
  command (svc l) = Some h -> Process h = Some pid ->
  Name c = Restart ->
  ps_State ps = Exited \/ ps_State ps = Backoff ->
  Run_loop [ICommand c; IState ps] l
  = Some (Selecting, mkLoop (set_state Stopped (svc l)) (Some c) (retries l),
          [EEvent Stopping None; ESignal pid (StopSignal (svc l));
           EArmKill pid; EEvent Stopped None]).
Proof.
  intros Hs Hc Hh Hp Hn Hps. destruct c as [n k], ps as [pst pe].
  destruct h as [pa ag co ce en di p].
  cbn [Name Process ps_State] in *.
  concrete_loop l.
  destruct Hps as [-> | ->]; reflexivity.
Qed.

Lemma restart_while_running_only_stops_witness :
  Run_loop [ask Restart 1%nat; IState (mkProcessState Exited (Some "exit"))]
    (sleeper_loop Running 42 None)
  = Some (Selecting,
          sleeper_loop Stopped 42 (Some (mkCommand Restart (Some 1%nat))),
          [EEvent Stopping None; ESignal 42 2; EArmKill 42;
           EEvent Stopped None]).
Proof.
  apply (restart_while_running_only_stops (sleeper_loop Running 42 None)
           (mkCommand Restart (Some 1%nat)) (child 42) 42
           (mkProcessState Exited (Some "exit")));
    try reflexivity.
  left. reflexivity.
Defined.

(** A [shutdown] received while the service is Stopped or Exited, whether
    or not another command is in flight, makes [Run] return at once: the
    command in flight, if any, is failed, the [shutdown] is answered with
    success, no event is emitted and no later message is received. *)
Theorem shutdown_when_idle_returns (l : Loop) (c : Command)
  (rest : list Input) :
  state (svc l) = Stopped \/ state (svc l) = Exited ->
  shouldQuit l = false ->
  Name c = Shutdown ->
  exists o,
    Run_loop (ICommand c :: rest) l
    = Some (Returned, mkLoop (svc l) (Some c) (retries l), o ++ reply c None)
    /\ events o = [] /\
    match lcommand l with
    | Some cur => exists msg, o = reply cur (Some msg)
    | None => o = []
    end.
Proof.
  intros Hs Hq Hn. destruct c as [n k]. cbn [Name] in Hn. unfold reply.
  cbn [Response Name].
  destruct l as [[d e st sr sg sto re so se ar cm stt] [[n0 k0]|] r];
    cbn [svc state lcommand retries] in *; subst.
  - exists (reply (mkCommand n0 k0) (Some "service is shuttind down")).
    unfold reply. cbn [Response Name].
    assert (E : (n0 =s Shutdown) = false).
    { unfold shouldQuit, shouldShutdown in Hq. cbn [lcommand Name] in Hq.
      destruct (n0 =s Shutdown); [|reflexivity].
      destruct Hs as [-> | ->]; discriminate Hq. }
    rewrite (Run_loop_step _ _ _ Hq).
    destruct Hs as [-> | ->], k, k0;
      (split; [eval_handle; loop_returns; reflexivity
              |split; [reflexivity
                      |exists "service is shuttind down"; reflexivity]]).
  - rewrite (Run_loop_step _ _ _ Hq). exists [].
    destruct Hs as [-> | ->], k;
      (split; [eval_handle; loop_returns; reflexivity
              |split; reflexivity]).
Qed.

Lemma shutdown_when_idle_returns_witness :
  exists o,
    Run_loop [ask Shutdown 1%nat; ask Start 2%nat] (mkLoop sleeper None 0)
    = Some (Returned,
            mkLoop sleeper (Some (mkCommand Shutdown (Some 1%nat))) 0,
            o ++ [EResponse 1%nat "shutdown" None])
    /\ events o = [] /\ o = [].
Proof.
  apply (shutdown_when_idle_returns (mkLoop sleeper None 0)
           (mkCommand Shutdown (Some 1%nat)) [ask Start 2%nat]).
  - left. reflexivity.
  - reflexivity.
  - reflexivity.
Defined.

(** A [shutdown] received while the service is Running and no command is
    in flight begins a stop; when the child's exit is reported the service
    becomes Stopped, the [shutdown] is answered with success and [Run]
    returns without receiving anything more. *)
Theorem shutdown_while_running_completes (l : Loop) (c : Command) (h : Cmd)
  (pid : Z) (ps : ProcessState) (rest : list Input) :
  state (svc l) = Running ->
  lcommand l = None ->
  command (svc l) = Some h -> Process h = Some pid ->
  Name c = Shutdown ->
  ps_State ps = Exited \/ ps_State ps = Backoff ->
  Run_loop (ICommand c :: IState ps :: rest) l
  = Some (Returned, mkLoop (set_state Stopped (svc l)) (Some c) (retries l),
          [EEvent Stopping None; ESignal pid (StopSignal (svc l));
           EArmKill pid; EEvent Stopped None] ++ reply c None).
Proof.
  intros Hs Hc Hh Hp Hn Hps. destruct c as [n k], ps as [pst pe].
  destruct h as [pa ag co ce en di p].
  cbn [Name Process ps_State] in *. unfold reply. cbn [Response Name].
  concrete_loop l.
  loop_steps.
  destruct Hps as [-> | ->], k; eval_handle;
    loop_steps; eval_handle;
    loop_returns; reflexivity.
Qed.

Lemma shutdown_while_running_completes_witness :
  Run_loop [ask Shutdown 1%nat; IState (mkProcessState Exited (Some "exit"));
            ask Start 2%nat]
    (sleeper_loop Running 42 None)
  = Some (Returned,
          sleeper_loop Stopped 42 (Some (mkCommand Shutdown (Some 1%nat))),
          [EEvent Stopping None; ESignal 42 2; EArmKill 42;
           EEvent Stopped None; EResponse 1%nat "shutdown" None]).
Proof.
  apply (shutdown_while_running_completes (sleeper_loop Running 42 None)
           (mkCommand Shutdown (Some 1%nat)) (child 42) 42
           (mkProcessState Exited (Some "exit")) [ask Start 2%nat]);
    try reflexivity.
  left. reflexivity.
Defined.

(** ** Exits that nobody asked for *)

(** An exit reported while the service is not Stopping and no command is
    in flight emits Exited with its cause.  With [StopRestart] set a new
    attempt begins in the same iteration, and this restart neither counts
    against [StartRetries] nor touches the retry counter; without it the
    service stays Exited. *)
Theorem unexpected_exit (l : Loop) (err : error) :
  state (svc l) <> Stopping ->
  lcommand l = None ->
  handle (IState (mkProcessState Exited err)) l
  = Some (tt,
          mkLoop (set_state (if StopRestart (svc l) then Starting else Exited)
                    (svc l)) None (retries l),
          EEvent Exited err
          :: (if StopRestart (svc l) then [EEvent Starting None; ESpawn]
              else [])).
Proof.
  intros Hs Hc. concrete_loop l.
  match goal with H : ?s <> Stopping |- _ => destruct s; try congruence end;
    match goal with |- context [mkService _ _ _ _ _ _ ?re] => destruct re end;
    reflexivity.
Qed.

Lemma unexpected_exit_witness :
  handle (IState (mkProcessState Exited (Some "exit")))
    (sleeper_loop Running 42 None)
  = Some (tt, sleeper_loop Starting 42 None,
          [EEvent Exited (Some "exit"); EEvent Starting None; ESpawn]).
Proof.
  apply (unexpected_exit (sleeper_loop Running 42 None) (Some "exit")).
  - discriminate.
  - reflexivity.
Defined.

(** A launch that fails while a [start] or [restart] is in flight: the
    helper's Exited notification carries the launch error, the event and
    the response both carry it, and with [StopRestart] set the launch is
    attempted again at once, without a command in flight and without
    counting a retry. *)
Theorem failed_launch_is_reported (l : Loop) (c : Command) (err : error) :
  state (svc l) = Starting ->
  lcommand l = Some c ->
  Name c = Start \/ Name c = Restart ->
  handle (IState (mkProcessState Exited err)) l
  = Some (tt,
          mkLoop (set_state (if StopRestart (svc l) then Starting else Exited)
                    (svc l)) None (retries l),
          EEvent Exited err :: reply c err
          ++ (if StopRestart (svc l) then [EEvent Starting None; ESpawn]
              else [])).
Proof.
  intros Hs Hc Hn. destruct c as [n k]. cbn [Name] in Hn. unfold reply.
  cbn [Response Name]. concrete_loop l.
  match goal with |- context [mkService _ _ _ _ _ _ ?re] => destruct re end;
    destruct Hn as [-> | ->], k; reflexivity.
Qed.

Lemma failed_launch_is_reported_witness :
  handle (IState (mkProcessState Exited (Some "exec: not found")))
    (mkLoop (set_state Starting sleeper)
       (Some (mkCommand Start (Some 1%nat))) 0)
  = Some (tt, mkLoop (set_state Starting sleeper) None 0,
          [EEvent Exited (Some "exec: not found");
           EResponse 1%nat "start" (Some "exec: not found");
           EEvent Starting None; ESpawn]).
Proof.
  apply (failed_launch_is_reported
           (mkLoop (set_state Starting sleeper)
              (Some (mkCommand Start (Some 1%nat))) 0)
           (mkCommand Start (Some 1%nat)) (Some "exec: not found")).
  - reflexivity.
  - reflexivity.
  - left. reflexivity.
Defined.

(** ** Commands the loop does not know *)

(** A command whose name is none of the four is accepted without any
    effect or response and becomes the command in flight; no notification
    from the helper answers or clears it. *)
Theorem unknown_command_latches (l l1 : Loop) (c : Command)
  (ps : ProcessState) (o : list Effect) :
  known (Name c) = false ->
  lcommand l = None ->
  handle (ICommand c) l = Some (tt, mkLoop (svc l) (Some c) (retries l), [])
  /\
  (handle (IState ps) (mkLoop (svc l) (Some c) (retries l))
   = Some (tt, l1, o) ->
   lcommand l1 = Some c /\ responses o = []).
Proof.
  intros Hk Hc. destruct c as [n k]. unfold known in Hk. cbn [Name] in Hk.
  rewrite !orb_false_iff in Hk. destruct Hk as (((H1 & H2) & H3) & H4).
  destruct l as [[d e0 st sr sg sto re so se ar cm stt] c0 r].
  cbn [lcommand] in Hc. subst c0. cbn [svc retries]. split.
  - unfold handle, on_command. loop_unfold. rewrite H1, H2, H3, H4.
    reflexivity.
  - destruct ps as [pst pe].
    destruct cm as [[pa ag co ce en di p]|]; destruct pst; loop_unfold;
      rewrite ?H1, ?H2, ?H3, ?H4; loop_crunch;
      rewrite ?H1, ?H2, ?H3, ?H4; loop_crunch;
      intros H; inversion H; subst; clear H;
      first [congruence|split; reflexivity].
Qed.

Lemma unknown_command_latches_witness :
  handle (ask "status" 1%nat) (mkLoop sleeper None 0)
  = Some (tt, mkLoop sleeper (Some (mkCommand "status" (Some 1%nat))) 0, [])
  /\
  lcommand (mkLoop (set_state Running sleeper)
              (Some (mkCommand "status" (Some 1%nat))) 0)
  = Some (mkCommand "status" (Some 1%nat)) /\
  responses [EEvent Running None] = [].
Proof.
  destruct (unknown_command_latches (mkLoop sleeper None 0)
              (mkLoop (set_state Running sleeper)
                 (Some (mkCommand "status" (Some 1%nat))) 0)
              (mkCommand "status" (Some 1%nat))
              (mkProcessState Running None) [EEvent Running None])
    as [H1 H2].
  - reflexivity.
  - reflexivity.
  - split; [exact H1|]. apply H2. reflexivity.
Defined.

(** ** When [Run] returns *)

(** [Run] returns only with a [shutdown] in flight and the service Stopped
    or Exited, and the last thing it does is answer that [shutdown] with
    success: nothing is emitted after it. *)
Theorem run_returns_after_shutdown (s : Service) (ins : list Input)
  (l : Loop) (o : list Effect) :
  Run s ins = Some (Returned, l, o) ->
  exists c o1,
    lcommand l = Some c /\ Name c = Shutdown /\
    (state (svc l) = Stopped \/ state (svc l) = Exited) /\
    o = o1 ++ reply c None.
Proof.
  unfold Run. generalize (mkLoop s None 0). revert o.
  induction ins as [|i rest IH]; intros o l0; cbn [Run_loop];
    destruct (shouldQuit l0) eqn:Eq.
  - destruct l0 as [s0 [[n k]|] r]; [|discriminate Eq].
    pose proof (SystemFacts.shouldQuit_idle _ Eq) as Hs.
    unfold shouldQuit, shouldShutdown in Eq. cbn [lcommand Name] in Eq.
    apply andb_true_iff in Eq. destruct Eq as [En _].
    apply String.eqb_eq in En.
    subst n. cbn. intros H. destruct k as [k|]; inversion H; subst;
      [exists (mkCommand Shutdown (Some k)), []
      |exists (mkCommand Shutdown None), []]; repeat split; auto.
  - discriminate.
  - destruct l0 as [s0 [[n k]|] r]; [|discriminate Eq].
    pose proof (SystemFacts.shouldQuit_idle _ Eq) as Hs.
    unfold shouldQuit, shouldShutdown in Eq. cbn [lcommand Name] in Eq.
    apply andb_true_iff in Eq. destruct Eq as [En _].
    apply String.eqb_eq in En.
    subst n. cbn. intros H. destruct k as [k|]; inversion H; subst;
      [exists (mkCommand Shutdown (Some k)), []
      |exists (mkCommand Shutdown None), []]; repeat split; auto.
  - destruct (handle i l0) as [[[[] l2] o2]|]; [|discriminate].
    destruct (Run_loop rest l2) as [[[st3 l3] o3]|] eqn:E2; [|discriminate].
    intros H. inversion H; subst.
    destruct (IH _ _ E2) as (c & o1 & H1 & H2 & H3 & H4).
    exists c, (o2 ++ o1). repeat split; auto.
    rewrite H4. apply app_assoc.
Qed.

Lemma run_returns_after_shutdown_witness :
  exists c o1,
    lcommand (mkLoop sleeper (Some (mkCommand Shutdown (Some 1%nat))) 0)
    = Some c /\ Name c = Shutdown /\
    (state (svc (mkLoop sleeper (Some (mkCommand Shutdown (Some 1%nat))) 0))
     = Stopped \/
     state (svc (mkLoop sleeper (Some (mkCommand Shutdown (Some 1%nat))) 0))
     = Exited) /\
    [EResponse 1%nat "shutdown" None] = o1 ++ reply c None.
Proof.
  apply (run_returns_after_shutdown sleeper [ask Shutdown 1%nat]).
  reflexivity.
Defined.

(** ** Witnesses for lemmas stated earlier *)

Lemma one_command_in_flight_witness :
  exists msg,
    handle (ICommand (mkCommand Stop (Some 2%nat)))
      (sleeper_loop Starting 42 (Some (mkCommand Start (Some 1%nat))))
    = Some (tt,
            sleeper_loop Starting 42 (Some (mkCommand Start (Some 1%nat))),
            reply (mkCommand Stop (Some 2%nat)) (Some msg)).
Proof.
  destruct (one_command_in_flight
              (sleeper_loop Starting 42 (Some (mkCommand Start (Some 1%nat))))
              (mkCommand Start (Some 1%nat)) (mkCommand Stop (Some 2%nat)))
    as [H _].
  - reflexivity.
  - apply H. discriminate.
Defined.

Lemma backoff_exhausted_witness :
  handle premature
    (mkLoop (set_state Starting sleeper)
       (Some (mkCommand Start (Some 1%nat))) 3)
  = Some (tt, mkLoop (set_state Exited sleeper) None 0,
          [EEvent Exited
             (Some "process exited prematurely with failure: exit status 1");
           EResponse 1%nat "start"
             (Some "process exited prematurely with failure: exit status 1")]).
Proof.
  apply (backoff_exhausted
           (mkLoop (set_state Starting sleeper)
              (Some (mkCommand Start (Some 1%nat))) 3)
           (mkCommand Start (Some 1%nat))).
  - discriminate.
  - apply Z.leb_le. reflexivity.
  - reflexivity.
  - reflexivity.
Defined.


Lemma stop_records_pid_witness :
  state (svc (sleeper_loop Running 42 None)) = Running /\
  state (svc (sleeper_loop Stopping 42 None)) = Stopping /\
  Pid (svc (sleeper_loop Stopping 42 None)) = Some 42 /\
  In (ESignal 42 (StopSignal (svc (sleeper_loop Running 42 None))))
    [EEvent Stopping None; ESignal 42 2; EArmKill 42].
Proof.
  apply (stop_records_pid (sleeper_loop Running 42 None)
           (sleeper_loop Stopping 42 None)
           [EEvent Stopping None; ESignal 42 2; EArmKill 42] 42).
  - reflexivity.
  - cbn. auto.
Defined.

(** * The previous iteration of [Run]: properties *)

Module Iteration3Facts.
Import Outcomes Iteration3.

(** Brings a loop given by hypotheses into evaluated form. *)
Ltac concrete_loop3 l :=
  let d := fresh "d" in let e := fresh "e" in let st := fresh "st" in
  let sr := fresh "sr" in let sg := fresh "sg" in let sto := fresh "sto" in
  let re := fresh "re" in let so := fresh "so" in let se := fresh "se" in
  let ar := fresh "ar" in let cm := fresh "cm" in let stt := fresh "stt" in
  let lc := fresh "lc" in let r := fresh "r" in let q := fresh "q" in
  destruct l as [[d e st sr sg sto re so se ar cm stt] lc r q];
  cbn [svc3 state lastCommand command retries3 quit StopRestart StopSignal
       StartRetries StartTimeout] in *;
  subst.

(** Evaluates the iteration at the head of the goal. *)
Ltac eval_iteration :=
  match goal with
  | |- context [on_command3 ?c ?l] =>
      let v := eval cbv in (on_command3 c l) in
      change (on_command3 c l) with v; cbv beta iota
  | |- context [on_state3 ?p ?l] =>
      let v := eval cbv in (on_state3 p l) in
      change (on_state3 p l) with v; cbv beta iota
  end.

(** A [shutdown] that arrived while the service was Starting is honoured
    once the helper reports Running: the loop emits Running, then begins
    the stop (Stopping, signal, timer); when the exit is reported the
    service becomes Stopped, and on the receive from [quit] the [shutdown]
    is answered with success and [Run] returns. *)
Theorem deferred_shutdown_completes (l : Loop3) (c : Command) (h : Cmd)
  (pid : Z) (err : error) :
  state (svc3 l) = Starting ->
  lastCommand l = Some c -> Name c = Shutdown -> quit l = O ->
  command (svc3 l) = Some h -> Process h = Some pid ->
  Run_loop3 [JState (mkProcessState Running None);
             JState (mkProcessState Exited err); JQuit] l
  = Ran Returned
      (mkLoop3 (set_state Stopped (svc3 l)) (Some c) (retries3 l) 0)
      ([EEvent Running None; EEvent Stopping None;
        ESignal pid (StopSignal (svc3 l)); EArmKill pid;
        EEvent Stopped None] ++ reply c None).
Proof.
  intros Hs Hc Hn Hq Hh Hp. destruct c as [n k], h as [pa ag co ce en di p].
  cbn [Name Process] in *. unfold reply. cbn [Response Name].
  concrete_loop3 l. destruct k; reflexivity.
Qed.

Lemma deferred_shutdown_completes_witness :
  Run_loop3 [JState (mkProcessState Running None);
             JState (mkProcessState Exited (Some "exit")); JQuit]
    (mkLoop3 (set_state Starting (set_command (Some (child 42)) sleeper))
       (Some (mkCommand Shutdown (Some 1%nat))) 0 0)
  = Ran Returned
      (mkLoop3 (set_state Stopped (set_command (Some (child 42)) sleeper))
         (Some (mkCommand Shutdown (Some 1%nat))) 0 0)
      [EEvent Running None; EEvent Stopping None; ESignal 42 2; EArmKill 42;
       EEvent Stopped None; EResponse 1%nat "shutdown" None].
Proof.
  apply (deferred_shutdown_completes
           (mkLoop3 (set_state Starting (set_command (Some (child 42)) sleeper))
              (Some (mkCommand Shutdown (Some 1%nat))) 0 0)
           (mkCommand Shutdown (Some 1%nat)) (child 42) 42 (Some "exit"));
    reflexivity.
Defined.

(** A [restart] received while the service is Running stops the child and,
    when its exit is reported, starts it again; the [restart] is answered
    with success when the new child is reported Running. *)
Theorem restart_restarts (l : Loop3) (c : Command) (h : Cmd) (pid : Z)
  (err : error) :
  state (svc3 l) = Running ->
  lastCommand l = None -> Name c = Restart ->
  command (svc3 l) = Some h -> Process h = Some pid ->
  Run_loop3 [JCommand c; JState (mkProcessState Exited err);
             JState (mkProcessState Running None)] l
  = Ran Selecting
      (mkLoop3 (svc3 l) None (retries3 l) (quit l))
      ([EEvent Stopping None; ESignal pid (StopSignal (svc3 l));
        EArmKill pid; EEvent Stopped None; EEvent Starting None; ESpawn;
        EEvent Running None] ++ reply c None).
Proof.
  intros Hs Hc Hn Hh Hp. destruct c as [n k], h as [pa ag co ce en di p].
  cbn [Name Process] in *. unfold reply. cbn [Response Name].
  concrete_loop3 l. destruct k; reflexivity.
Qed.

Lemma restart_restarts_witness :
  Run_loop3 [JCommand (mkCommand Restart (Some 1%nat));
             JState (mkProcessState Exited (Some "exit"));
             JState (mkProcessState Running None)]
    (mkLoop3 (set_state Running (set_command (Some (child 42)) sleeper))
       None 0 0)
  = Ran Selecting
      (mkLoop3 (set_state Running (set_command (Some (child 42)) sleeper))
         None 0 0)
      [EEvent Stopping None; ESignal 42 2; EArmKill 42; EEvent Stopped None;
       EEvent Starting None; ESpawn; EEvent Running None;
       EResponse 1%nat "restart" None].
Proof.
  apply (restart_restarts
           (mkLoop3 (set_state Running (set_command (Some (child 42)) sleeper))
              None 0 0)
           (mkCommand Restart (Some 1%nat)) (child 42) 42 (Some "exit"));
    reflexivity.
Defined.

Lemma on_command3_after_shutdown (l : Loop3) (cur c : Command) :
  lastCommand l = Some cur -> Name cur = Shutdown ->
  on_command3 c l = Done tt l (reply c (Some "service is shutting down")).
Proof.
  intros Hc Hn. destruct cur as [n0 k0], c as [n k]. cbn [Name] in Hn.
  unfold reply. cbn [Response Name].
  destruct l as [s lc r q]. cbn [lastCommand] in Hc. subst.
  destruct k; reflexivity.
Qed.

(** Once a [shutdown] is the last command it cannot be overridden: however
    many commands follow, another [shutdown] included, each is answered
    with [service is shutting down], in order, and the loop is left exactly
    as it was. *)
Theorem shutdown_cannot_be_overridden (l : Loop3) (cur : Command)
  (cs : list Command) :
  lastCommand l = Some cur -> Name cur = Shutdown ->
  Run_loop3 (map JCommand cs) l
  = Ran Selecting l
      (flat_map (fun c => reply c (Some "service is shutting down")) cs).
Proof.
  intros Hc Hn. induction cs as [|c cs IH].
  - reflexivity.
  - cbn [map Run_loop3 flat_map]. unfold stepO.
    rewrite (on_command3_after_shutdown l cur c Hc Hn), IH. reflexivity.
Qed.

Lemma shutdown_cannot_be_overridden_witness :
  Run_loop3 [JCommand (mkCommand Start (Some 2%nat));
             JCommand (mkCommand Shutdown (Some 3%nat))]
    (mkLoop3 sleeper (Some (mkCommand Shutdown (Some 1%nat))) 0 1)
  = Ran Selecting
      (mkLoop3 sleeper (Some (mkCommand Shutdown (Some 1%nat))) 0 1)
      [EResponse 2%nat "start" (Some "service is shutting down");
       EResponse 3%nat "shutdown" (Some "service is shutting down")].
Proof.
  apply (shutdown_cannot_be_overridden
           (mkLoop3 sleeper (Some (mkCommand Shutdown (Some 1%nat))) 0 1)
           (mkCommand Shutdown (Some 1%nat))
           [mkCommand Start (Some 2%nat); mkCommand Shutdown (Some 3%nat)]);
    reflexivity.
Defined.

(** The helper of this iteration posts Running as soon as the child is
    launched, so a [start] is answered with success at the launch; when
    the child then exits within the start window the loop emits Backoff
    and begins the first retry, with no command left to answer. *)
Theorem start_answered_at_launch (s s1 : Service) (c : Command) (pid : Z)
  (elapsed : Duration) (exitErr : error) (posts : list ProcessState) :
  state s = Stopped \/ state s = Exited ->
  Name c = Start ->
  0 < StartRetries s ->
  elapsed < StartTimeout s ->
  helper3 (set_state Starting s) (inl pid) elapsed exitErr
  = Some (s1, posts) ->
  Run3 s (JCommand c :: map JState posts)
  = Ran Selecting (mkLoop3 (set_state Starting s) None 1 0)
      ([EEvent Starting None; ESpawn; EEvent Running None] ++ reply c None
       ++ [EEvent Backoff (Some (Lifecycle.premature_msg exitErr));
           EEvent Starting None; ESpawn]).
Proof.
  intros Hs Hn Hr He Hh. destruct c as [n k]. cbn [Name] in Hn. subst n.
  unfold reply. cbn [Response Name].
  unfold helper3 in Hh.
  destruct (makeCommand (set_state Starting s)) as [c0|]; [|discriminate].
  apply Z.ltb_lt in He. cbn [StartTimeout set_state] in Hh. rewrite He in Hh.
  inversion Hh; subst; clear Hh.
  destruct s as [d e st sr sg sto re so se ar cm stt].
  cbn [state StartRetries] in *. apply Z.ltb_lt in Hr.
  unfold Run3. cbn [map Run_loop3]. unfold stepO.
  destruct Hs as [-> | ->], k;
    (eval_iteration; eval_iteration;
     cbv beta iota delta [on_state3 onBackoff bindO getO retries3 svc3
                          StartRetries ps_State ps_Error];
     rewrite Hr; reflexivity).
Qed.

Lemma start_answered_at_launch_witness :
  Run3 sleeper
    (JCommand (mkCommand Start (Some 1%nat))
     :: map JState
          [mkProcessState Running None;
           mkProcessState Backoff
             (Some "process exited prematurely with success")])
  = Ran Selecting (mkLoop3 (set_state Starting sleeper) None 1 0)
      [EEvent Starting None; ESpawn; EEvent Running None;
       EResponse 1%nat "start" None;
       EEvent Backoff (Some "process exited prematurely with success");
       EEvent Starting None; ESpawn].
Proof.
  apply (start_answered_at_launch sleeper
           (set_command (Some (child 42)) (set_state Starting sleeper))
           (mkCommand Start (Some 1%nat)) 42 5 None).
  - left. reflexivity.
  - reflexivity.
  - reflexivity.
  - reflexivity.
  - reflexivity.
Defined.

(** A premature exit reported while a [stop] is under way is not taken as
    the end of the stop: with retries left the loop emits Backoff and
    starts the child again, and the [stop] is dropped without a
    response. *)
Theorem backoff_while_stopping_restarts (l : Loop3) (c : Command)
  (err : error) :
  state (svc3 l) = Stopping ->
  lastCommand l = Some c -> Name c = Stop ->
  retries3 l < StartRetries (svc3 l) ->
  on_state3 (mkProcessState Backoff err) l
  = Done tt
      (mkLoop3 (set_state Starting (svc3 l)) None
         (int_wrap (retries3 l + 1)) (quit l))
      [EEvent Backoff err; EEvent Starting None; ESpawn].
Proof.
  intros Hs Hc Hn Hr. destruct c as [n k]. cbn [Name] in Hn. subst n.
  concrete_loop3 l. apply Z.ltb_lt in Hr.
  cbv beta iota delta [on_state3 onBackoff bindO getO retries3 svc3
                       StartRetries ps_State ps_Error].
  rewrite Hr. reflexivity.
Qed.

Lemma backoff_while_stopping_restarts_witness :
  on_state3
    (mkProcessState Backoff (Some "process exited prematurely with success"))
    (mkLoop3 (set_state Stopping (set_command (Some (child 42)) sleeper))
       (Some (mkCommand Stop (Some 1%nat))) 0 0)
  = Done tt
      (mkLoop3 (set_state Starting (set_command (Some (child 42)) sleeper))
         None (int_wrap (0 + 1)) 0)
      [EEvent Backoff (Some "process exited prematurely with success");
       EEvent Starting None; ESpawn].
Proof.
  apply (backoff_while_stopping_restarts
           (mkLoop3 (set_state Stopping (set_command (Some (child 42)) sleeper))
              (Some (mkCommand Stop (Some 1%nat))) 0 0)
           (mkCommand Stop (Some 1%nat))
           (Some "process exited prematurely with success"));
    reflexivity.
Defined.

End Iteration3Facts.

(** * The first iteration of [Run]: properties *)

Module Iteration1Facts.
Import Outcomes Iteration1.

Ltac unfold1 :=
  cbv beta iota zeta delta
    [on_state1 on_command1 on_quit1 on_kill1 onRunning onStopped onExited
     start stop shutdown sendEvent sendInvalidCmd send_quit1
     put_state1 put_lastCommand1 put_retries1 set_state1 Pid1
     bindO retO getO putO emitO deref respondO stepO
     svc1 lastCommand1 retries1 quit1 state1 command1 Restart_ Retries
     StopSignal1 State_eqb andb negb orb app Name Response Process].

(** Unfolds the closures and splits on whatever test is in the way. *)
Ltac crunch1 :=
  unfold1;
  repeat match goal with
         | |- context [if ?n =s ?m then _ else _] =>
             destruct (n =s m) eqn:?; unfold1
         | |- context [if ?a <? ?b then _ else _] =>
             destruct (a <? b) eqn:?; unfold1
         | |- context [match ?x with Some _ => _ | None => _ end] =>
             is_var x; destruct x; unfold1
         | |- context [match ?x with Starting => _ | _ => _ end] =>
             is_var x; destruct x; unfold1
         | |- context [if ?x then _ else _] =>
             is_var x; destruct x; unfold1
         end.

(** Whatever the counter held and whatever command is in flight, after a
    Running notification it is 0 again, and the service is Running, or
    Stopping when a [shutdown] was waiting for it. *)
Theorem running_resets_retries (l l1 : Loop1) (o : list Effect) :
  on_state1 Running l = Done tt l1 o ->
  retries1 l1 = 0 /\
  (state1 (svc1 l1) = Running \/ state1 (svc1 l1) = Stopping).
Proof.
  destruct l as [[d e sg sto re rt so se ar cm stt] [[n k]|] r q];
    destruct cm as [[pa ag co ce en di [p|]]|]; crunch1;
    intros H; inversion H; subst; clear H; cbn; auto.
Qed.

Lemma running_resets_retries_witness :
  retries1 (mkLoop1 (mkService1 "/" None 2 5 true 3 None None ["sleep"] None
                       Running) None 0 0) = 0 /\
  (state1 (svc1 (mkLoop1 (mkService1 "/" None 2 5 true 3 None None ["sleep"]
                            None Running) None 0 0)) = Running \/
   state1 (svc1 (mkLoop1 (mkService1 "/" None 2 5 true 3 None None ["sleep"]
                            None Running) None 0 0)) = Stopping).
Proof.
  apply (running_resets_retries
           (mkLoop1 (mkService1 "/" None 2 5 true 3 None None ["sleep"] None
                       Starting) None 2 0)
           (mkLoop1 (mkService1 "/" None 2 5 true 3 None None ["sleep"] None
                       Running) None 0 0)
           [EEvent Running None]).
  reflexivity.
Defined.

Lemma exit_with_retries_left (l : Loop1) :
  state1 (svc1 l) <> Stopping ->
  lastCommand1 l = None ->
  Restart_ (svc1 l) = true ->
  retries1 l < Retries (svc1 l) ->
  on_state1 Exited l
  = Done tt
      (mkLoop1 (set_state1 Starting (svc1 l)) None
         (int_wrap (retries1 l + 1)) (quit1 l))
      [EEvent Exited None; EEvent Starting None; ESpawn].
Proof.
  destruct l as [[d e sg sto re rt so se ar cm stt] lc r q].
  cbn [svc1 state1 lastCommand1 Restart_ retries1 Retries quit1].
  intros Hs -> -> Hr. apply Z.ltb_lt in Hr.
  destruct stt; try congruence; unfold1; rewrite Hr; reflexivity.
Qed.

Lemma exit_without_retries_left (l : Loop1) :
  state1 (svc1 l) <> Stopping ->
  lastCommand1 l = None ->
  Retries (svc1 l) <= retries1 l ->
  on_state1 Exited l
  = Done tt
      (mkLoop1 (set_state1 Exited (svc1 l)) None (retries1 l) (quit1 l))
      [EEvent Exited None].
Proof.
  destruct l as [[d e sg sto re rt so se ar cm stt] lc r q].
  cbn [svc1 state1 lastCommand1 Restart_ retries1 Retries quit1].
  intros Hs -> Hr. apply Z.ltb_ge in Hr.
  destruct stt; try congruence; unfold1; rewrite Hr;
    destruct re; reflexivity.
Qed.

Lemma exits_are_retried (k : nat) :
  forall l : Loop1,
    state1 (svc1 l) <> Stopping ->
    lastCommand1 l = None ->
    Restart_ (svc1 l) = true ->
    0 <= retries1 l ->
    retries1 l + Z.of_nat k = Retries (svc1 l) ->
    Retries (svc1 l) < 2 ^ 63 ->
    Run_loop1 (repeat (JState Exited) (S k)) l
    = Ran Selecting
        (mkLoop1 (set_state1 Exited (svc1 l)) None (Retries (svc1 l)) (quit1 l))
        (restarts k ++ [EEvent Exited None]).
Proof.
  induction k as [|k IH]; intros l Hs Hc Hre H0 Hk Hmax.
  - cbn [repeat Run_loop1]. unfold stepO.
    rewrite exit_without_retries_left by (auto; lia).
    cbn. replace (Retries (svc1 l)) with (retries1 l) by lia. reflexivity.
  - change (repeat (JState Exited) (S (S k)))
      with (JState Exited :: repeat (@JState State Exited) (S k)).
    cbn [Run_loop1]. unfold stepO.
    rewrite exit_with_retries_left by (auto; lia).
    rewrite int_wrap_small by (unfold in_int; lia).
    rewrite IH.
    + destruct l as [[d e sg sto re rt so se ar cm stt] lc r q]. reflexivity.
    + cbn. discriminate.
    + reflexivity.
    + destruct l as [[d e sg sto re rt so se ar cm stt] lc r q]. exact Hre.
    + cbn. lia.
    + destruct l as [[d e sg sto re rt so se ar cm stt] lc r q].
      cbn in *. lia.
    + destruct l as [[d e sg sto re rt so se ar cm stt] lc r q]. exact Hmax.
Qed.

(** A launch that keeps failing is retried [Retries] times and no more.
    [startProcess] posts a lone Exited for each failed launch; with
    [Restart] set and the counter at 0, the first [Retries] of them are
    each followed by a new attempt, the next one leaves the service
    Exited with the counter at [Retries]. *)
Theorem failing_launch_is_retried (l : Loop1) (s1 : Service1) (e : string)
  (posts : list State) (err : error) (n : nat) :
  startProcess (svc1 l) (inr e) = Some (s1, posts, err) ->
  state1 (svc1 l) = Starting ->
  lastCommand1 l = None ->
  Restart_ (svc1 l) = true ->
  retries1 l = 0 ->
  Retries (svc1 l) = Z.of_nat n ->
  Retries (svc1 l) < 2 ^ 63 ->
  err = Some e /\
  Run_loop1 (concat (repeat (map JState posts) (S n))) l
  = Ran Selecting
      (mkLoop1 (set_state1 Exited (svc1 l)) None (Retries (svc1 l)) (quit1 l))
      (restarts n ++ [EEvent Exited None]).
Proof.
  intros Hsp Hs Hc Hre Hr Hn Hmax. unfold startProcess in Hsp.
  destruct (makeCommand1 (svc1 l)); [|discriminate].
  inversion Hsp; subst; clear Hsp. split; [reflexivity|].
  assert (Hin : concat (repeat (map (@JState State) [Exited]) (S n))
                = repeat (JState Exited) (S n)).
  { generalize (S n). intros m. induction m as [|m IH]; [reflexivity|].
    cbn [repeat concat map app] in *. rewrite IH. reflexivity. }
  rewrite Hin. apply exits_are_retried; auto; try lia.
  rewrite Hs. discriminate.
Qed.

Lemma failing_launch_is_retried_witness :
  Some "exec: not found" = Some "exec: not found" /\
  Run_loop1
    (concat (repeat (map (@JState State) [Exited]) 3))
    (mkLoop1 (mkService1 "/" None 2 5 true 2 None None ["nosuch"] None
                Starting) None 0 0)
  = Ran Selecting
      (mkLoop1 (set_state1 Exited
                  (mkService1 "/" None 2 5 true 2 None None ["nosuch"] None
                     Starting)) None 2 0)
      (restarts 2 ++ [EEvent Exited None]).
Proof.
  apply (failing_launch_is_retried
           (mkLoop1 (mkService1 "/" None 2 5 true 2 None None ["nosuch"] None
                       Starting) None 0 0)
           (set_command1
              (Some (mkCmd "nosuch" ["nosuch"] None None None "/" None))
              (mkService1 "/" None 2 5 true 2 None None ["nosuch"] None
                 Starting))
           "exec: not found" [Exited] (Some "exec: not found") 2);
    try reflexivity.
Defined.

End Iteration1Facts.
